(** * ResumeGen: the layout engine and composer of [app.py]

    A shallow embedding of [src/app.py] and the properties of its text
    wrapper, bordered cards, page flow and editing surface.

    Conventions of the embedding.
    - A Python [str] is a list of Unicode code points ([N]).
    - Python numbers used for geometry are exact rationals ([Q]); rounding of
      binary floating point is abstracted away.  Comparisons are the boolean
      ones the code performs.
    - The ReportLab canvas is the list of the calls made on it, in call order.
    - [stringWidth], [json.loads] and [json.dumps] belong to external
      libraries and are taken as parameters of the sections that use them.
    - The functions of lines 13-337 are embedded as they stand.  The script
      part (lines 348-391) contains a call that is never closed (lines
      377-381), so the file as written does not parse and no run of the
      script is modelled; the Generate handler and the download action are
      embedded as their text reads once that call is closed. *)

From Stdlib Require Import Ascii String.
From Stdlib Require Import List Bool Arith NArith ZArith QArith Lia Lqa.
Import ListNotations.

Set Implicit Arguments.

(* ================================================================= *)
(** ** Python strings *)

Module PyStr.

Definition char := N.
Definition str := list char.

(** A literal written with ASCII characters. *)
Definition lit (s : string) : str :=
  map N_of_ascii (list_ascii_of_string s).

Definition str_eq_dec : forall a b : str, {a = b} + {a <> b} :=
  list_eq_dec N.eq_dec.

Definition str_eqb (a b : str) : bool :=
  if str_eq_dec a b then true else false.

(** [bool(s)] of a string: non-empty. *)
Definition nonempty (s : str) : bool :=
  match s with [] => false | _ :: _ => true end.

(** The code points [str.split()] and [str.strip()] treat as white space. *)
Definition isspace (c : char) : bool :=
  ((9 <=? c) && (c <=? 13) || (28 <=? c) && (c <=? 32)
   || (c =? 133) || (c =? 160) || (c =? 5760)
   || (8192 <=? c) && (c <=? 8202)
   || (c =? 8232) || (c =? 8233) || (c =? 8239) || (c =? 8287)
   || (c =? 12288))%N.

Definition space : char := 32%N.

Fixpoint lstrip (s : str) : str :=
  match s with
  | [] => []
  | c :: s' => if isspace c then lstrip s' else s
  end.

Definition rstrip (s : str) : str := rev (lstrip (rev s)).

(** [s.strip()] *)
Definition strip (s : str) : str := rstrip (lstrip s).

(** [s.split()]: the maximal runs of non-space code points, in order. *)
Fixpoint split (s : str) : list str :=
  match s with
  | [] => []
  | c :: s' =>
      if isspace c then split s'
      else match s' with
           | [] => [[c]]
           | d :: _ =>
               if isspace d then [c] :: split s'
               else match split s' with
                    | [] => [[c]]
                    | w :: ws => (c :: w) :: ws
                    end
           end
  end.

(** [" ".join(ls)] *)
Fixpoint join_sp (ls : list str) : str :=
  match ls with
  | [] => []
  | [l] => l
  | l :: ls' => l ++ space :: join_sp ls'
  end.

(** [s.upper()] on the code points below 128 (the titles it is applied to
    are ASCII literals). *)
Definition upper_char (c : char) : char :=
  if ((97 <=? c) && (c <=? 122))%N then (c - 32)%N else c.

Definition upper (s : str) : str := map upper_char s.

End PyStr.
Import PyStr.

(* ================================================================= *)
(** ** Text wrapper *)

Inductive Font := Helvetica | HelveticaBold.

Definition Qleb (a b : Q) : bool := Qle_bool a b.
Definition Qltb (a b : Q) : bool := negb (Qle_bool b a).

Section Wrap.

(** [reportlab.pdfbase.pdfmetrics.stringWidth(text, font, size)] *)
Variable stringWidth : str -> Font -> Q -> Q.

(** The body of the [for w in words] loop of [wrap_lines] (and of the same
    loop in [draw_wrapped_text]); the state is [(line, lines)]. *)
Definition wrap_step (max_width : Q) (font : Font) (size : Q)
    (st : str * list str) (w : str) : str * list str :=
  let '(line, lines) := st in
  let test := strip (line ++ space :: w) in
  if Qleb (stringWidth test font size) max_width then (test, lines)
  else ((w, if nonempty line then lines ++ [line] else lines)).

Definition wrap_loop (max_width : Q) (font : Font) (size : Q)
    (words : list str) (st : str * list str) : str * list str :=
  fold_left (wrap_step max_width font size) words st.

(** The trailing [if line: lines.append(line)]. *)
Definition flush (st : str * list str) : list str :=
  let '(line, lines) := st in
  if nonempty line then lines ++ [line] else lines.

Definition wrap_lines (text : str) (max_width : Q) (font : Font) (size : Q)
    : list str :=
  let words := split text in
  match words with
  | [] => []
  | _ => flush (wrap_loop max_width font size words ([], []))
  end.

End Wrap.

(* ================================================================= *)
(** ** The canvas *)

(** The calls made on a [reportlab.pdfgen.canvas.Canvas]. *)
Inductive Op :=
| SetFont (font : Font) (size : Q)
| DrawString (x y : Q) (text : str)
| SetLineWidth (w : Q)
| SetStrokeColorRGB (r g b : Q)
| Line (x1 y1 x2 y2 : Q)
| Rect (x y width height : Q) (stroke fill : bool)
| ShowPage
| Save.

(** A call together with the value the vertical cursor [y] of the calling
    function has when the call is made ([None] where no cursor is in
    scope, as in [draw_page_border]). *)
Record Event := mkEvent { cur : option Q; op : Op }.

(** The canvas is only ever appended to: a drawing function returns its
    result and the calls it made, in order. *)
Definition W (A : Type) : Type := (A * list Event)%type.

Definition ret {A} (a : A) : W A := (a, []).

Definition bind {A B} (m : W A) (k : A -> W B) : W B :=
  let '(a, t) := m in
  let '(b, t') := k a in
  (b, t ++ t').

Notation "x <- m ;; k" := (bind m (fun x => k))
  (at level 61, m at next level, right associativity).
Notation "m ;;; k" := (bind m (fun _ => k))
  (at level 61, right associativity).

Definition call (y : Q) (o : Op) : W unit := (tt, [mkEvent (Some y) o]).
Definition call_nocursor (o : Op) : W unit := (tt, [mkEvent None o]).

Definition trace {A} (m : W A) : list Event := snd m.
Definition ops {A} (m : W A) : list Op := map op (snd m).

(** The pages of the document: the calls between consecutive [showPage]s. *)
Fixpoint pages_from (acc : list Op) (l : list Op) : list (list Op) :=
  match l with
  | [] => [rev acc]
  | ShowPage :: l' => rev acc :: pages_from [] l'
  | o :: l' => pages_from (o :: acc) l'
  end.

Definition pages (l : list Op) : list (list Op) := pages_from [] l.

(* ================================================================= *)
(** ** Geometry *)

Open Scope Q_scope.

(** [reportlab.lib.units] and [reportlab.lib.pagesizes.A4]. *)
Definition inch : Q := 72.
Definition cm : Q := inch / 2.54.
Definition mm : Q := cm * 0.1.
Definition A4 : Q * Q := (210 * mm, 297 * mm).

Definition PAGE_W : Q := fst A4.
Definition PAGE_H : Q := snd A4.
Definition MIN_LINE_GAP : Q := 0.8.

Definition Qofnat (n : nat) : Q := inject_Z (Z.of_nat n).

(** Python's [max] on two numbers. *)
Definition pymax (a b : Q) : Q := if Qltb a b then b else a.

(* ================================================================= *)
(** ** Layout engine *)

(** [box_height] of [draw_boxed_block], for [n = len(text_lines)]. *)
Definition box_height (padding leading line_gap : Q) (n : nat) : Q :=
  padding * 2 + (Qofnat n * leading)
  + (inject_Z (Z.max 0 (Z.of_nat n - 1)) * line_gap).

(** The text loop of [draw_boxed_block]; [y] is the box top, [ty] the
    baseline of the next line. *)
Fixpoint draw_box_lines (y x padding leading line_gap ty : Q)
    (text_lines : list str) : W unit :=
  match text_lines with
  | [] => ret tt
  | ln :: rest =>
      call y (DrawString (x + padding) ty ln) ;;;
      draw_box_lines y x padding leading line_gap (ty - (leading + line_gap)) rest
  end.

Definition draw_boxed_block (x y width : Q) (lines : list str)
    (padding : Q) (font : Font) (size leading line_gap : Q) : W (Q * Q) :=
  let text_lines := lines in
  let box_height := box_height padding leading line_gap (length text_lines) in
  call y (SetLineWidth 0.5) ;;;
  call y (SetStrokeColorRGB 0 0 0) ;;;
  call y (Rect x (y - box_height) width box_height false false) ;;;
  call y (SetFont font size) ;;;
  let ty := y - padding - size in
  draw_box_lines y x padding leading line_gap ty text_lines ;;;
  ret (y, box_height).

(** The drawing loop of [draw_wrapped_text]. *)
Fixpoint draw_text_lines (x y leading : Q) (lines : list str) : W Q :=
  match lines with
  | [] => ret y
  | ln :: rest =>
      call y (DrawString x y ln) ;;;
      draw_text_lines x (y - leading) leading rest
  end.

(** The bullet marker, U+2022. *)
Definition bullet_marker : str := [8226%N].

Section Layout.

Variable stringWidth : str -> Font -> Q -> Q.

Definition draw_wrapped_text (text : str) (x y max_width : Q)
    (font : Font) (size leading min_gap : Q) : W Q :=
  call y (SetFont font size) ;;;
  let words := split text in
  let lines := flush (wrap_loop stringWidth max_width font size words ([], [])) in
  y <- draw_text_lines x y leading lines ;;
  let y := y - min_gap in
  ret y.

Definition draw_section_title (title : str) (x y size : Q) : W Q :=
  call y (SetFont HelveticaBold size) ;;;
  call y (DrawString x y (upper title)) ;;;
  ret (y - (14 + MIN_LINE_GAP)).

(** The loop of [draw_bullets]. *)
Fixpoint draw_bullet_items (bullets : list str) (x y max_width : Q)
    (font : Font) (size leading bullet_indent : Q) : W Q :=
  match bullets with
  | [] => ret y
  | b :: rest =>
      call y (DrawString x y bullet_marker) ;;;
      y <- draw_wrapped_text b (x + bullet_indent) y (max_width - bullet_indent)
             font size leading MIN_LINE_GAP ;;
      let y := y - MIN_LINE_GAP in
      draw_bullet_items rest x y max_width font size leading bullet_indent
  end.

Definition or_nil {A} (o : option (list A)) : list A :=
  match o with Some l => l | None => [] end.

Definition draw_bullets (bullets : option (list str)) (x y max_width : Q)
    (font : Font) (size leading bullet_indent : Q) : W Q :=
  call y (SetFont font size) ;;;
  draw_bullet_items (or_nil bullets) x y max_width font size leading bullet_indent.

Definition draw_divider (x_start x_end y thickness : Q) : W Q :=
  call y (SetLineWidth thickness) ;;;
  call y (Line x_start y x_end y) ;;;
  ret (y - 8).

Definition draw_page_border (page_w page_h margin thickness : Q) : W unit :=
  call_nocursor (SetLineWidth thickness) ;;;
  call_nocursor (SetStrokeColorRGB 0 0 0) ;;;
  call_nocursor (Rect margin margin (page_w - 1.85 * margin)
                   (page_h - 2 * margin) true false).

End Layout.

Close Scope Q_scope.

(* ================================================================= *)
(** ** The resume document *)

(** A JSON object whose values are text: the items of [skills_snapshot]
    and [education]. *)
Definition Dict := list (str * str).

(** [d.get(key, default)] *)
Fixpoint dict_get (d : Dict) (key default : str) : str :=
  match d with
  | [] => default
  | (k, v) :: d' => if str_eqb k key then v else dict_get d' key default
  end.

(** [bool(d)] of a dict: non-empty. *)
Definition dict_truthy (d : Dict) : bool :=
  match d with [] => false | _ :: _ => true end.

Record Experience := mkExperience {
  company : option str;
  role_line : option str;
  bullets : option (list str)
}.

(** The parsed input document; [None] is an absent key. *)
Record ResumeDocument := mkResumeDocument {
  name : option str;
  contact : option str;
  career_objective : option str;
  skills_snapshot : option (list Dict);
  experience : option (list Experience);
  education : option (list Dict);
  certifications : option (list str);
  references : option (list str)
}.

(** [data.get(key, default)] on an optional text field. *)
Definition get_or (o : option str) (default : str) : str :=
  match o with Some v => v | None => default end.

(* ================================================================= *)
(** ** Document composer: the canvas calls of [create_resume_pdf] *)

Open Scope Q_scope.

Definition left : Q := 0.5 * cm.
Definition right : Q := 0.5 * cm.
Definition top : Q := 0.75 * cm.
Definition bottom : Q := 0 * cm.
Definition content_w : Q := PAGE_W - left - right.

Definition label_w : Q := 4.2 * cm.
Definition gap : Q := 0.6 * cm.
Definition value_x : Q := left + label_w + gap.
Definition value_w : Q := content_w - label_w - gap.

Definition col_gap : Q := 0.6 * cm.
Definition col_w : Q := (content_w - col_gap) / 2.
Definition x1 : Q := left.
Definition x2 : Q := left + col_w + col_gap.
Definition card_padding : Q := 6.
Definition card_font : Font := Helvetica.
Definition card_size : Q := 8.5.
Definition card_leading : Q := 11.

Definition new_page_if_needed (ypos : Q) : W Q :=
  if Qltb ypos (bottom + 2 * cm) then
    call ypos ShowPage ;;; ret (PAGE_H - top)
  else ret ypos.

(** A [for] loop whose body updates the cursor. *)
Fixpoint for_each {A} (body : Q -> A -> W Q) (items : list A) (y : Q) : W Q :=
  match items with
  | [] => ret y
  | item :: rest => y <- body y item ;; for_each body rest y
  end.

(** The equal-length padding of one education row (lines 284-288);
    [right_present] is the truth value of [right_item]. *)
Definition pad_row (left_lines right_lines : list str) (right_present : bool)
    : list str * list str :=
  let max_lines :=
    Nat.max (length left_lines)
            (if right_present then length right_lines else 0%nat) in
  let left_lines :=
    if (length left_lines <? max_lines)%nat
    then left_lines ++ repeat [] (max_lines - length left_lines)
    else left_lines in
  let right_lines :=
    if right_present && (length right_lines <? max_lines)%nat
    then right_lines ++ repeat [] (max_lines - length right_lines)
    else right_lines in
  (left_lines, right_lines).

Section Composer.

Variable stringWidth : str -> Font -> Q -> Q.

(** Body of the skills loop (lines 197-206). *)
Definition skill_row (y : Q) (item : Dict) : W Q :=
  y <- new_page_if_needed y ;;
  let label := dict_get item (lit "label") [] in
  let value := dict_get item (lit "value") [] in
  call y (SetFont HelveticaBold 10) ;;;
  call y (DrawString left y label) ;;;
  y <- draw_wrapped_text stringWidth value value_x y value_w
         Helvetica 10 12 MIN_LINE_GAP ;;
  ret (y - 2).

(** The nested [exp_block]; the [nonlocal y] is passed in and returned. *)
Definition exp_block (company role_line : str) (bullets : option (list str))
    (y : Q) : W Q :=
  y <- new_page_if_needed y ;;
  call y (SetFont HelveticaBold 10.5) ;;;
  call y (DrawString left y company) ;;;
  let y := y - 13 in
  call y (SetFont HelveticaBold 10) ;;;
  y <- draw_wrapped_text stringWidth role_line left y content_w
         HelveticaBold 10 12 MIN_LINE_GAP ;;
  let y := y - 2 in
  y <- draw_bullets stringWidth bullets left y content_w Helvetica 10 12 10 ;;
  ret (y - 6).

(** The line block of one education card (lines 267-273, 276-281). *)
Definition card_lines (item : Dict) : list str :=
  let deg := dict_get item (lit "degree") [] in
  let det := dict_get item (lit "details") [] in
  wrap_lines stringWidth deg (col_w - 2 * card_padding) card_font card_size
  ++ wrap_lines stringWidth det (col_w - 2 * card_padding) card_font card_size.

(** Body of the education [while] loop (lines 257-306) for the items at
    [i] and [i + 1]; [right_item] is [None] past the end of the list. *)
Definition edu_row (left_item : Dict) (right_item : option Dict) (y : Q)
    : W Q :=
  y <- (if Qltb y (bottom + 4 * cm)
        then call y ShowPage ;;; ret (PAGE_H - top)
        else ret y) ;;
  let right_present :=
    match right_item with Some d => dict_truthy d | None => false end in
  let left_lines := card_lines left_item in
  let right_lines :=
    match right_item with
    | Some d => if dict_truthy d then card_lines d else []
    | None => []
    end in
  let '(left_lines, right_lines) :=
    pad_row left_lines right_lines right_present in
  r <- draw_boxed_block x1 y col_w left_lines
         card_padding card_font card_size card_leading 0 ;;
  let h_left := snd r in
  row_height <-
    (if right_present then
       r <- draw_boxed_block x2 y col_w right_lines
              card_padding card_font card_size card_leading 0 ;;
       let h_right := snd r in
       ret (pymax h_left h_right)
     else ret h_left) ;;
  ret (y - row_height - 10).

(** The [while i < len(edu_items)] loop, [i] advancing by two. *)
Fixpoint edu_rows (edu_items : list Dict) (y : Q) : W Q :=
  match edu_items with
  | [] => ret y
  | [left_item] => edu_row left_item None y
  | left_item :: right_item :: rest =>
      y <- edu_row left_item (Some right_item) y ;;
      edu_rows rest y
  end.

(** Body of the references loop (lines 332-334). *)
Definition reference_row (y : Q) (r : str) : W Q :=
  y <- new_page_if_needed y ;;
  y <- draw_wrapped_text stringWidth r left y content_w
         Helvetica 8 6 MIN_LINE_GAP ;;
  ret (y - 4).

(** Header (lines 157-173); the cursor starts at the top margin. *)
Definition header (data : ResumeDocument) : W Q :=
  let y := PAGE_H - top in
  call y (SetFont HelveticaBold 16) ;;;
  call y (DrawString left y (get_or (name data) (lit "YOUR NAME"))) ;;;
  let y := y - 15 in
  call y (SetFont Helvetica 9) ;;;
  call y (DrawString left y
            (get_or (contact data) (lit "Location | Phone | Email"))) ;;;
  let y := y - 8 in
  ret y.

(** Career objective (lines 176-184). *)
Definition section_objective (data : ResumeDocument) (y : Q) : W Q :=
  y <- draw_divider left (left + content_w) y 0.7 ;;
  let y := y - 3 in
  y <- new_page_if_needed y ;;
  y <- draw_section_title (lit "CAREER OBJECTIVE") left y 11 ;;
  let objective := get_or (career_objective data) [] in
  y <- draw_wrapped_text stringWidth objective left y content_w
         Helvetica 10 12 MIN_LINE_GAP ;;
  let y := y - 10 in
  ret y.

(** Skills snapshot (lines 187-208). *)
Definition section_skills (data : ResumeDocument) (y : Q) : W Q :=
  y <- new_page_if_needed y ;;
  y <- draw_section_title (lit "SKILLS SNAPSHOT") left y 11 ;;
  y <- for_each skill_row (or_nil (skills_snapshot data)) y ;;
  let y := y - 10 in
  ret y.

(** Experience (lines 211-235). *)
Definition section_experience (data : ResumeDocument) (y : Q) : W Q :=
  y <- new_page_if_needed y ;;
  y <- draw_section_title (lit "EXPERIENCE") left y 11 ;;
  for_each
    (fun y exp =>
       exp_block (get_or (company exp) []) (get_or (role_line exp) [])
         (bullets exp) y)
    (or_nil (experience data)) y.

(** Education (lines 238-308). *)
Definition section_education (data : ResumeDocument) (y : Q) : W Q :=
  y <- draw_section_title (lit "EDUCATION") left y 11 ;;
  let y := y + 15 in
  let edu_items := or_nil (education data) in
  edu_rows edu_items y.

(** Certifications (lines 319-325). *)
Definition section_certifications (data : ResumeDocument) (y : Q) : W Q :=
  let certs := or_nil (certifications data) in
  match certs with
  | [] => ret y
  | _ :: _ =>
      y <- new_page_if_needed y ;;
      y <- draw_section_title (lit "CERTIFICATIONS") left y 11 ;;
      y <- draw_bullets stringWidth (Some certs) left y content_w
             Helvetica 10 12 10 ;;
      y <- draw_divider left (left + content_w) y 0.7 ;;
      let y := y - 0 in
      ret y
  end.

(** Reference (lines 327-334). *)
Definition section_reference (data : ResumeDocument) (y : Q) : W Q :=
  let refs := or_nil (references data) in
  match refs with
  | [] => ret y
  | _ :: _ =>
      y <- new_page_if_needed y ;;
      y <- draw_section_title (lit "REFERENCE") left (y - 2) 11 ;;
      for_each reference_row refs y
  end.

(** Lines 147-336 of [create_resume_pdf]: everything drawn for [data],
    section by section, ending with [c.save()]. *)
Definition compose (data : ResumeDocument) : W unit :=
  draw_page_border PAGE_W PAGE_H (0.2 * cm) 0.5 ;;;
  y <- header data ;;
  y <- section_objective data y ;;
  y <- section_skills data y ;;
  y <- section_experience data y ;;
  y <- section_education data y ;;
  y <- section_certifications data y ;;
  y <- section_reference data y ;;
  call y Save.

End Composer.

Close Scope Q_scope.

(* ================================================================= *)
(** ** Files, console and the editing surface *)

(** The message of a raised exception, [str(e)]. *)
Definition Exn := str.

(** The working directory: path and content of each file. *)
Definition FS := list (str * str).

Fixpoint fs_read (path : str) (fs : FS) : option str :=
  match fs with
  | [] => None
  | (p, content) :: fs' =>
      if str_eqb p path then Some content else fs_read path fs'
  end.

Fixpoint fs_write (path content : str) (fs : FS) : FS :=
  match fs with
  | [] => [(path, content)]
  | (p, c) :: fs' =>
      if str_eqb p path then (p, content) :: fs'
      else (p, c) :: fs_write path content fs'
  end.

Definition fs_exists (path : str) (fs : FS) : bool :=
  match fs_read path fs with Some _ => true | None => false end.

Record World := mkWorld {
  files : FS;
  stdout : list str
}.

(** What the Generate and download actions put on the page: [st.error],
    [st.success], [st.download_button], and the [st.write] Streamlit makes
    of a string that stands alone as a statement. *)
Inductive Widget :=
| ErrorMsg (s : str)
| SuccessMsg (s : str)
| DownloadButton (label data file_name mime : str)
| Write (s : str).

Definition JSON_PATH : str := lit "resume_data.json".
Definition OUTPUT_PDF : str := lit "Rachit_Sharma_Resume_Generated.pdf".

(** The string that stands alone as a statement at lines 310-317 of
    [create_resume_pdf] (the disabled project-highlights part). *)
Definition highlights_text : str :=
  lit "# ===== PROJECT HIGHLIGHTS (optional, dynamic) ====="
  ++ 10%N :: lit "    projects = data.get("
  ++ 34%N :: lit "project_highlights" ++ 34%N :: lit ") or []"
  ++ 10%N :: lit "    if projects:"
  ++ 10%N :: lit "        y = new_page_if_needed(y)"
  ++ 10%N :: lit "        y = draw_section_title(c, "
  ++ 34%N :: lit "PROJECT HIGHLIGHTS" ++ 34%N :: lit ", left, y, size=11)"
  ++ 10%N :: lit "        y = draw_bullets(c, projects, left, y, content_w)"
  ++ 10%N :: lit "        y -= 8" ++ 10%N :: lit "    ".

Section App.

Variable stringWidth : str -> Font -> Q -> Q.

(** [json.loads], [json.dumps(data, indent=...)], the reading of a parsed
    value as a resume document (the accesses [data.get(...)] fail on a
    value of another shape), and the bytes ReportLab writes for a canvas. *)
Variable Json : Type.
Variable json_loads : str -> Exn + Json.
Variable json_dumps : Json -> nat -> str.
Variable as_document : Json -> Exn + ResumeDocument.
Variable pdf_bytes : list Op -> str.

(** For a parsed value on which the drawing part of [create_resume_pdf]
    raises: whether it raises after line 317, in the certifications or
    references part, when the string of lines 310-317 has been passed. *)
Variable rejected_late : Json -> bool.

Definition file_not_found (path : str) : Exn :=
  lit "[Errno 2] No such file or directory: '" ++ path ++ lit "'".

Definition created_msg (output_path : str) : str :=
  9989%N :: lit " Created: " ++ output_path.

(** [create_resume_pdf(json_path, output_path)]: the file is written by
    [c.save()], after every drawing call. *)
Definition create_resume_pdf (json_path output_path : str) (w : World)
    : Exn + World :=
  match fs_read json_path (files w) with
  | None => inl (file_not_found json_path)
  | Some text =>
      match json_loads text with
      | inl e => inl e
      | inr j =>
          match as_document j with
          | inl e => inl e
          | inr data =>
              let c := compose stringWidth data in
              inr {| files := fs_write output_path (pdf_bytes (ops c)) (files w);
                     stdout := stdout w ++ [created_msg output_path] |}
          end
      end
  end.

(** What a call of [create_resume_pdf] from the script writes to the page:
    the string of lines 310-317, once the drawing reaches it. *)
Definition render_writes (json_path : str) (w : World) : list Widget :=
  match fs_read json_path (files w) with
  | None => []
  | Some text =>
      match json_loads text with
      | inl _ => []
      | inr j =>
          match as_document j with
          | inr _ => [Write highlights_text]
          | inl _ => if rejected_late j then [Write highlights_text] else []
          end
      end
  end.

(** The [try] block of the Generate button (lines 369-383), read with the
    call of [create_resume_pdf] closed after its two arguments.  In
    [src/app.py] that call is never closed (lines 377-381), so Python
    rejects the file with a SyntaxError and, as the file stands, this block
    never runs: what is proved of [generate] is proved of the handler's
    text, not of a run of the file as written. *)
Definition generate (edited_json : str) (w : World) : World * list Widget :=
  match json_loads edited_json with
  | inl e => (w, [ErrorMsg e])
  | inr data =>
      let w := {| files := fs_write JSON_PATH (json_dumps data 2) (files w);
                  stdout := stdout w |} in
      let written := render_writes (lit "resume_data.json") w in
      match create_resume_pdf (lit "resume_data.json")
              (lit "RachitS_Resume.pdf") w with
      | inl e => (w, written ++ [ErrorMsg e])
      | inr w =>
          (w, written ++ [SuccessMsg (lit "PDF generated successfully!")])
      end
  end.

(** The download action (lines 385-391). *)
Definition download (w : World) : list Widget :=
  match fs_read OUTPUT_PDF (files w) with
  | Some data =>
      [DownloadButton (11015%N :: 65039%N :: lit " Download PDF") data
         OUTPUT_PDF (lit "application/pdf")]
  | None => []
  end.

End App.

(* ================================================================= *)
(** ** Sample instances for concrete runs *)

(** A text measure in which every code point is 0.6 em wide. *)
Definition mono_width (s : str) (font : Font) (size : Q) : Q :=
  (Qofnat (length s) * (0.6 * size))%Q.

Definition minimal_doc : ResumeDocument :=
  {| name := Some (lit "A");
     contact := Some (lit "b@x.com");
     career_objective := Some (lit "Hello world");
     skills_snapshot := None; experience := None; education := None;
     certifications := None; references := None |}.

(** A stand-in for the JSON library on two texts: the empty object and
    the minimal document; every other text is rejected. *)
Definition empty_doc : ResumeDocument :=
  {| name := None; contact := None; career_objective := None;
     skills_snapshot := None; experience := None; education := None;
     certifications := None; references := None |}.

Definition minimal_json : str :=
  lit "{" ++ 34%N :: lit "name" ++ 34%N :: lit ":" ++ 34%N :: lit "A" ++ 34%N
  :: lit "," ++ 34%N :: lit "contact" ++ 34%N :: lit ":" ++ 34%N
  :: lit "b@x.com" ++ 34%N :: lit "," ++ 34%N :: lit "career_objective"
  ++ 34%N :: lit ":" ++ 34%N :: lit "Hello world" ++ 34%N :: lit "}".

Definition sample_loads (s : str) : Exn + ResumeDocument :=
  if str_eqb s (lit "{}") then inr empty_doc
  else if str_eqb s minimal_json then inr minimal_doc
  else inl (lit "Expecting value").

Definition sample_dumps (d : ResumeDocument) (indent : nat) : str :=
  match name d with
  | None => lit "{}"
  | Some _ => minimal_json
  end.

Definition sample_as_document (d : ResumeDocument) : Exn + ResumeDocument :=
  inr d.

Definition sample_pdf_bytes (l : list Op) : str := lit "%PDF-1.3".

(** A working directory holding only the input file. *)
Definition sample_world : World :=
  {| files := [(JSON_PATH, lit "{}")]; stdout := [] |}.

(** A stand-in for the values [json.loads] returns: a resume document, or
    the float it returns for the text NaN, which is not JSON. *)
Inductive SampleValue :=
| SampleDocument (d : ResumeDocument)
| SampleNaN.

Definition lenient_loads (s : str) : Exn + SampleValue :=
  if str_eqb s (lit "NaN") then inr SampleNaN
  else match sample_loads s with
       | inr d => inr (SampleDocument d)
       | inl e => inl e
       end.

Definition lenient_dumps (v : SampleValue) (indent : nat) : str :=
  match v with
  | SampleNaN => lit "NaN"
  | SampleDocument d => sample_dumps d indent
  end.

(** A float has no [get]: the drawing part raises at line 168. *)
Definition lenient_as_document (v : SampleValue) : Exn + ResumeDocument :=
  match v with
  | SampleDocument d => inr d
  | SampleNaN => inl (lit "'float' object has no attribute 'get'")
  end.

Definition never_late {A} (v : A) : bool := false.

(** A document with one certification and nothing else. *)
Definition certs_doc : ResumeDocument :=
  {| name := None; contact := None; career_objective := None;
     skills_snapshot := None; experience := None; education := None;
     certifications := Some [lit "X"]; references := None |}.

(* ================================================================= *)
(** ** Observations on a render pass *)

(** The strings drawn, in order. *)
Fixpoint texts (l : list Op) : list str :=
  match l with
  | [] => []
  | DrawString _ _ s :: l' => s :: texts l'
  | _ :: l' => texts l'
  end.

(** The rectangles drawn, in order. *)
Fixpoint rects (l : list Op) : list Op :=
  match l with
  | [] => []
  | Rect x y w h st fl :: l' => Rect x y w h st fl :: rects l'
  | _ :: l' => rects l'
  end.

(** The calls that put a mark on the page, and the page break. *)
Definition is_drawing (o : Op) : bool :=
  match o with
  | DrawString _ _ _ | Line _ _ _ _ | Rect _ _ _ _ _ _ | ShowPage => true
  | _ => false
  end.

Definition drawing_events (tr : list Event) : list Event :=
  filter (fun e => is_drawing (op e)) tr.

(** The bound on the cursor of the next call: after a page break the top
    margin, after any other call the cursor of that call. *)
Definition after (o : Op) (y : Q) : Q :=
  match o with
  | ShowPage => (PAGE_H - top)%Q
  | _ => y
  end.

(** Run of the cursor discipline over a trace: every call is made at a
    cursor that is at most the bound left by the call before it ([bound]
    for the first).  Calls without a cursor are skipped. *)
Fixpoint check (bound : Q) (tr : list Event) : option Q :=
  match tr with
  | [] => Some bound
  | e :: tr' =>
      match cur e with
      | None => check bound tr'
      | Some y => if Qleb y bound then check (after (op e) y) tr' else None
      end
  end.

Definition cursor_ok (bound : Q) (tr : list Event) : bool :=
  match check bound tr with Some _ => true | None => false end.

(* ================================================================= *)
(** ** The cursor discipline as pre- and postconditions *)

(** The next call may be made at cursor [y]. *)
Definition At (y : Q) (bound : Q) : Prop := (y <= bound)%Q.

(** Run from a bound satisfying [P], the calls of [m] respect the
    discipline and leave a bound satisfying [R] of the result. *)
Definition triple {A} (P : Q -> Prop) (m : W A) (R : A -> Q -> Prop) : Prop :=
  forall b, P b ->
    exists b', check b (trace m) = Some b' /\ R (fst m) b'.

Definition is_showpage (o : Op) : bool :=
  match o with ShowPage => true | _ => false end.

Section ComposeParts.

Variable stringWidth : str -> Font -> Q -> Q.

(** The part of [compose] before the EDUCATION title (lines 147-235). *)
Definition before_education (data : ResumeDocument) : W Q :=
  draw_page_border PAGE_W PAGE_H (0.2 * cm)%Q 0.5%Q ;;;
  y <- header data ;;
  y <- section_objective stringWidth data y ;;
  y <- section_skills stringWidth data y ;;
  section_experience stringWidth data y.

(** The part of [compose] after the EDUCATION title and the adjustment of
    line 239, entered with cursor [y]. *)
Definition after_education_title (data : ResumeDocument) (y : Q) : W unit :=
  y <- edu_rows stringWidth (or_nil (education data)) y ;;
  y <- section_certifications stringWidth data y ;;
  y <- section_reference stringWidth data y ;;
  call y Save.

End ComposeParts.

(** The call that draws the EDUCATION title at cursor [y]. *)
Definition education_title (y : Q) : Event :=
  mkEvent (Some y) (DrawString left y (lit "EDUCATION")).

(* ================================================================= *)
(** ** Predicates used in the statements *)

Definition nonspace (c : char) : Prop := isspace c = false.

(** A word: a non-empty string without white space. *)
Definition word (w : str) : Prop := w <> [] /\ Forall nonspace w.

Definition starts_ns (s : str) : Prop :=
  match s with c :: _ => nonspace c | [] => False end.

Definition ends_ns (s : str) : Prop := starts_ns (rev s).

(** What [stringWidth] gives for the fonts of the program, whose glyphs
    have widths that are not negative and add up: a string measures at
    least as much as any part of it. *)
Definition measure_monotone (stringWidth : str -> Font -> Q -> Q)
    (font : Font) (size : Q) : Prop :=
  forall a s b,
    (stringWidth s font size <= stringWidth (a ++ s ++ b) font size)%Q.

Section WrapPredicates.

Variable stringWidth : str -> Font -> Q -> Q.
Variable max_width : Q.
Variable font : Font.
Variable size : Q.

(** The test of the loop: the measured width is at most [max_width]. *)
Definition fits (s : str) : Prop :=
  Qleb (stringWidth s font size) max_width = true.

(** The word groups the greedy loop can put on one line: a first word,
    then each further word only if the line extended by it fits. *)
Inductive built : list str -> Prop :=
| built_one : forall w, word w -> built [w]
| built_snoc : forall g w,
    built g -> word w -> fits (join_sp (g ++ [w])) -> built (g ++ [w]).

(** State of the loop after the words [done]: the closed lines and the
    open line are joined groups of those words, in order. *)
Definition loop_inv (done : list str) (st : str * list str) : Prop :=
  exists gs cur,
    snd st = map join_sp gs /\ Forall built gs /\
    (cur = [] \/ built cur) /\ fst st = join_sp cur /\
    concat gs ++ cur = done.

End WrapPredicates.

(* ================================================================= *)
(** ** The minimal document *)

(** The rectangle [draw_page_border] draws. *)
Definition page_border_rect : Op :=
  Rect (0.2 * cm) (0.2 * cm) (PAGE_W - 1.85 * (0.2 * cm))
    (PAGE_H - 2 * (0.2 * cm)) true false.

(** The reading of the minimal-document property in which none of the
    skills, experience and education sections puts anything on the page,
    their titles included. *)
Definition minimal_render_untitled
    (stringWidth : str -> Font -> Q -> Q) : Prop :=
  let l := ops (compose stringWidth minimal_doc) in
  length (pages l) = 1%nat /\
  In (lit "A") (texts l) /\
  In (lit "b@x.com") (texts l) /\
  ~ In (lit "SKILLS SNAPSHOT") (texts l) /\
  ~ In (lit "EXPERIENCE") (texts l) /\
  ~ In (lit "EDUCATION") (texts l).

(* ================================================================= *)
(** ** Greedy line breaks *)

(** The first word of a line. *)
Definition first_word (l : str) : str := hd [] (split l).

Section GreedyPredicates.

Variable stringWidth : str -> Font -> Q -> Q.
Variable max_width : Q.
Variable font : Font.
Variable size : Q.

(** Every break between two consecutive lines was forced: the earlier line
    extended by the first word of the later one is too wide. *)
Fixpoint breaks_forced (lines : list str) : Prop :=
  match lines with
  | a :: (b :: _) as rest =>
      (max_width < stringWidth (a ++ space :: first_word b) font size)%Q
      /\ breaks_forced rest
  | _ => True
  end.

(** The same on word groups. *)
Fixpoint tight (gs : list (list str)) : Prop :=
  match gs with
  | g :: (g' :: _) as rest =>
      Qleb (stringWidth (join_sp (g ++ [hd [] g'])) font size) max_width
      = false
      /\ tight rest
  | _ => True
  end.

(** The groups closed so far followed by the open one, if any. *)
Definition with_open (gs : list (list str)) (cur : list str)
    : list (list str) :=
  match cur with [] => gs | _ :: _ => gs ++ [cur] end.

(** State of the loop after the words [done], with forced breaks. *)
Definition greedy_inv (done : list str) (st : str * list str) : Prop :=
  exists gs cur,
    snd st = map join_sp gs /\
    Forall (built stringWidth max_width font size) gs /\
    (cur = [] \/ built stringWidth max_width font size cur) /\
    fst st = join_sp cur /\
    concat gs ++ cur = done /\
    (cur = [] -> gs = []) /\
    tight (with_open gs cur).

End GreedyPredicates.

(* ================================================================= *)
(** ** Heights and positions of what the layout engine draws *)

(** A string is drawn with its baseline between [lo] and [hi]. *)
Definition baseline_within (lo hi : Q) (o : Op) : Prop :=
  match o with
  | DrawString _ ty _ => (lo <= ty /\ ty <= hi)%Q
  | _ => True
  end.

(** The vertical space a bullet list takes: per bullet its wrapped lines
    and the two gaps that follow them. *)
Fixpoint bullets_height (stringWidth : str -> Font -> Q -> Q)
    (bullets : list str) (max_width : Q) (font : Font)
    (size leading bullet_indent : Q) : Q :=
  match bullets with
  | [] => 0
  | b :: rest =>
      (Qofnat (length (wrap_lines stringWidth b (max_width - bullet_indent)
                         font size)) * leading
       + MIN_LINE_GAP + MIN_LINE_GAP
       + bullets_height stringWidth rest max_width font size leading
           bullet_indent)%Q
  end.

(** The calls only the frame of a document makes: the stroked rectangle of
    the page border and the final save. *)
Definition is_frame_op (o : Op) : bool :=
  match o with
  | Save => true
  | Rect _ _ _ _ stroke _ => stroke
  | _ => false
  end.

(** A drawing function that makes no frame call. *)
Definition frameless {A} (m : W A) : Prop :=
  Forall (fun e => is_frame_op (op e) = false) (trace m).

(** A drawing function that never breaks the page. *)
Definition unbroken {A} (m : W A) : Prop :=
  Forall (fun e => is_showpage (op e) = false) (trace m).

(** Whether the right card of an education row is drawn: the truth value
    of [right_item]. *)
Definition right_present_of (right_item : option Dict) : bool :=
  match right_item with Some d => dict_truthy d | None => false end.

(** The cursor from which a row is drawn: the top margin after the page
    break of line 258, the cursor itself otherwise. *)
Definition row_top (y : Q) : Q :=
  if Qltb y (bottom + 4 * cm)%Q then (PAGE_H - top)%Q else y.

(** [sample_world] after a render of its input file to "out.pdf". *)
Definition sample_world_rendered : World :=
  {| files := [(JSON_PATH, lit "{}"); (lit "out.pdf", lit "%PDF-1.3")];
     stdout := [9989%N :: lit " Created: out.pdf"] |}.

(* ================================================================= *)
(** * Properties *)

(** ** Strings: words, [split], [strip], [join_sp] *)

Example split_example :
  split (lit "  Hello   world ") = [lit "Hello"; lit "world"].
Proof. reflexivity. Qed.

Example strip_example : strip (lit "  a b  ") = lit "a b".
Proof. reflexivity. Qed.

Example wrap_lines_example :
  wrap_lines mono_width (lit "one two three  four") 50 Helvetica 10
  = [lit "one two"; lit "three"; lit "four"].
Proof. reflexivity. Qed.

(** A word wider than the line is kept whole on a line of its own. *)
Example wrap_lines_wide_word :
  wrap_lines mono_width (lit "a incomprehensible b") 50 Helvetica 10
  = [lit "a"; lit "incomprehensible"; lit "b"].
Proof. reflexivity. Qed.

Lemma space_isspace : isspace space = true.
Proof. reflexivity. Qed.

Lemma word_starts : forall w, word w -> starts_ns w.
Proof.
  intros [|c w] [Hne Hall]; [congruence|].
  inversion Hall; assumption.
Qed.

Lemma word_ends : forall w, word w -> ends_ns w.
Proof.
  intros w [Hne Hall]. unfold ends_ns.
  assert (Hr : Forall nonspace (rev w)) by (apply Forall_rev; assumption).
  destruct (rev w) as [|c r] eqn:E.
  - apply (f_equal (@rev char)) in E. rewrite rev_involutive in E.
    simpl in E. congruence.
  - inversion Hr; assumption.
Qed.

Lemma starts_ns_app : forall a b, starts_ns a -> starts_ns (a ++ b).
Proof. intros [|c a] b H; [destruct H | exact H]. Qed.

Lemma ends_ns_app : forall a b, ends_ns b -> ends_ns (a ++ b).
Proof.
  intros a b H. unfold ends_ns in *. rewrite rev_app_distr.
  apply starts_ns_app; assumption.
Qed.

Lemma lstrip_id : forall s, starts_ns s -> lstrip s = s.
Proof.
  intros [|c s] H; [reflexivity|].
  simpl in *. unfold nonspace in H. rewrite H. reflexivity.
Qed.

Lemma strip_id : forall s, starts_ns s -> ends_ns s -> strip s = s.
Proof.
  intros s Hs He. unfold strip, rstrip.
  rewrite (lstrip_id s Hs), (lstrip_id (rev s) He).
  apply rev_involutive.
Qed.

Lemma strip_space_cons : forall s, strip (space :: s) = strip s.
Proof. reflexivity. Qed.

(** A word followed by nothing or by white space is split off whole. *)
Lemma split_word_app : forall w r,
  word w ->
  (r = [] \/ exists d r', r = d :: r' /\ isspace d = true) ->
  split (w ++ r) = w :: split r.
Proof.
  induction w as [|c w IH]; intros r [Hne Hall] Hr; [congruence|].
  inversion Hall as [|? ? Hc Hw]; subst.
  unfold nonspace in Hc.
  destruct w as [|c' w'].
  - simpl. rewrite Hc.
    destruct Hr as [-> | (d & r' & -> & Hd)]; [reflexivity|].
    rewrite Hd. reflexivity.
  - assert (Hw' : word (c' :: w')) by (split; [discriminate | assumption]).
    specialize (IH r Hw' Hr).
    inversion Hw as [|? ? Hc' _]; subst. unfold nonspace in Hc'.
    change ((c :: c' :: w') ++ r) with (c :: (c' :: w') ++ r).
    cbn [split]. rewrite Hc.
    change ((c' :: w') ++ r) with (c' :: (w' ++ r)) at 1.
    cbn iota. rewrite Hc'. rewrite IH. reflexivity.
Qed.

Lemma split_word : forall w, word w -> split w = [w].
Proof.
  intros w Hw. rewrite <- (app_nil_r w) at 1.
  rewrite split_word_app; auto.
Qed.

Lemma split_join_sp : forall ws, Forall word ws -> split (join_sp ws) = ws.
Proof.
  induction ws as [|w ws IH]; intros H; [reflexivity|].
  inversion H as [|? ? Hw Hws]; subst.
  destruct ws as [|w' ws'].
  - simpl. apply split_word; assumption.
  - change (join_sp (w :: w' :: ws')) with (w ++ space :: join_sp (w' :: ws')).
    rewrite split_word_app; auto.
    + cbn [split]. rewrite space_isspace. rewrite IH; auto.
    + right. eauto using space_isspace.
Qed.

(** The words [split] returns are words. *)
Lemma split_words : forall s, Forall word (split s).
Proof.
  induction s as [|c s IH]; [constructor|].
  cbn [split]. destruct (isspace c) eqn:Hc; [assumption|].
  assert (Hw1 : word [c]) by (split; [discriminate | repeat constructor; exact Hc]).
  assert (H1 : Forall word [[c]]) by (constructor; [exact Hw1 | constructor]).
  destruct s as [|d s']; [exact H1|].
  destruct (isspace d) eqn:Hd; [constructor; assumption|].
  destruct (split (d :: s')) as [|w ws]; [exact H1|].
  inversion IH as [|? ? [Hne Hall] Hws]; subst.
  constructor; [|assumption].
  split; [discriminate | constructor; assumption].
Qed.

Lemma join_sp_snoc : forall g w,
  g <> [] -> join_sp (g ++ [w]) = join_sp g ++ space :: w.
Proof.
  induction g as [|a g IH]; intros w Hne; [congruence|].
  destruct g as [|b g'].
  - reflexivity.
  - change (join_sp ((a :: b :: g') ++ [w]))
      with (a ++ space :: join_sp ((b :: g') ++ [w])).
    rewrite IH by discriminate.
    change (join_sp (a :: b :: g')) with (a ++ space :: join_sp (b :: g')).
    rewrite <- app_assoc. reflexivity.
Qed.

Lemma join_sp_starts : forall g,
  g <> [] -> Forall word g -> starts_ns (join_sp g).
Proof.
  intros [|a g] Hne H; [congruence|].
  inversion H; subst.
  destruct g; simpl; [|apply starts_ns_app]; apply word_starts; assumption.
Qed.

Lemma join_sp_nonempty : forall g,
  g <> [] -> Forall word g -> join_sp g <> [].
Proof.
  intros g Hne H E. pose proof (join_sp_starts Hne H) as Hs.
  rewrite E in Hs. exact Hs.
Qed.

(** What the loop computes as [test]. *)
Lemma strip_test : forall g w,
  Forall word g -> word w ->
  strip (join_sp g ++ space :: w) = join_sp (g ++ [w]).
Proof.
  intros g w Hg Hw. destruct g as [|a g'].
  - simpl. rewrite strip_space_cons.
    apply strip_id; [apply word_starts | apply word_ends]; assumption.
  - rewrite join_sp_snoc by discriminate.
    apply strip_id.
    + apply starts_ns_app. apply join_sp_starts; [discriminate | assumption].
    + apply ends_ns_app.
      change (space :: w) with ([space] ++ w).
      apply ends_ns_app. apply word_ends; assumption.
Qed.

(* ================================================================= *)
(** ** The text wrapper *)

Section WrapFacts.

Variable stringWidth : str -> Font -> Q -> Q.
Variable max_width : Q.
Variable font : Font.
Variable size : Q.

Local Notation "'Built'" := (built stringWidth max_width font size).
Local Notation "'Fits'" := (fits stringWidth max_width font size).
Local Notation "'Inv'" := (loop_inv stringWidth max_width font size).
Local Notation "'step'" := (wrap_step stringWidth max_width font size).
Local Notation "'loop'" := (wrap_loop stringWidth max_width font size).

Lemma built_nonempty : forall g, Built g -> g <> [].
Proof.
  intros g H; inversion H; subst; [discriminate|].
  intros E; apply app_eq_nil in E; destruct E; discriminate.
Qed.

Lemma built_words : forall g, Built g -> Forall word g.
Proof.
  induction 1.
  - constructor; [assumption | constructor].
  - apply Forall_app; split; [assumption|].
    constructor; [assumption | constructor].
Qed.

(** A line holding several words fits; a line that does not fit is a
    single word. *)
Lemma built_fits_or_single : forall g,
  Built g ->
  Fits (join_sp g) \/
  exists w, g = [w] /\ word w /\ Qleb (stringWidth w font size) max_width = false.
Proof.
  intros g H; inversion H as [w Hw | g' w Hg Hw Hf]; subst.
  - destruct (Qleb (stringWidth w font size) max_width) eqn:E.
    + left. exact E.
    + right. exists w. auto.
  - left. exact Hf.
Qed.

Lemma loop_inv_init : Inv [] ([], []).
Proof. exists [], []. simpl. repeat split; auto. Qed.

Lemma concat_snoc : forall (gs : list (list str)) g,
  concat (gs ++ [g]) = concat gs ++ g.
Proof. intros. rewrite concat_app. simpl. rewrite app_nil_r. reflexivity. Qed.

Lemma loop_inv_step : forall done st w,
  Inv done st -> word w -> Inv (done ++ [w]) (step st w).
Proof.
  intros done [line lines] w (gs & cur & Hl & Hgs & Hcur & Hline & Hd) Hw.
  simpl in Hl, Hline. subst line lines done.
  assert (Hcw : Forall word cur).
  { destruct Hcur as [-> | Hb]; [constructor | apply built_words; exact Hb]. }
  unfold wrap_step. rewrite (strip_test Hcw Hw).
  destruct (Qleb (stringWidth (join_sp (cur ++ [w])) font size) max_width) eqn:E.
  - exists gs, (cur ++ [w]). simpl. repeat split; auto.
    + right. destruct Hcur as [-> | Hb].
      * apply built_one; assumption.
      * apply built_snoc; assumption.
    + rewrite app_assoc. reflexivity.
  - destruct Hcur as [-> | Hb].
    + exists gs, [w]. simpl. repeat split; auto.
      * right. apply built_one; assumption.
      * rewrite app_nil_r. reflexivity.
    + assert (Hne : nonempty (join_sp cur) = true).
      { pose proof (join_sp_nonempty (built_nonempty Hb) (built_words Hb)).
        destruct (join_sp cur); [congruence | reflexivity]. }
      rewrite Hne.
      exists (gs ++ [cur]), [w]. simpl. repeat split.
      * rewrite map_app. reflexivity.
      * apply Forall_app; split; [assumption | constructor; [assumption | constructor]].
      * right. apply built_one; assumption.
      * rewrite concat_snoc. reflexivity.
Qed.

Lemma loop_inv_run : forall words done st,
  Forall word words -> Inv done st ->
  Inv (done ++ words) (loop words st).
Proof.
  induction words as [|w ws IH]; intros done st Hws Hinv.
  - rewrite app_nil_r. exact Hinv.
  - inversion Hws; subst. unfold wrap_loop. simpl.
    change (w :: ws) with ([w] ++ ws). rewrite app_assoc.
    apply IH; [assumption|]. apply loop_inv_step; assumption.
Qed.

Lemma flush_inv : forall done st,
  Inv done st ->
  exists gs, flush st = map join_sp gs /\ Forall Built gs /\ concat gs = done.
Proof.
  intros done [line lines] (gs & cur & Hl & Hgs & Hcur & Hline & Hd).
  simpl in Hl, Hline. subst. unfold flush.
  destruct Hcur as [-> | Hb].
  - exists gs. simpl. rewrite app_nil_r. auto.
  - pose proof (join_sp_nonempty (built_nonempty Hb) (built_words Hb)) as Hne.
    destruct (join_sp cur) as [|c l] eqn:E; [congruence|]. simpl.
    exists (gs ++ [cur]). rewrite map_app, concat_snoc. simpl. rewrite E.
    repeat split; auto.
    apply Forall_app; split; [assumption | constructor; [assumption | constructor]].
Qed.

(** The lines returned are the words of the text, cut into consecutive
    greedy groups and joined with single spaces. *)
Lemma wrap_lines_groups : forall text,
  exists gs,
    wrap_lines stringWidth text max_width font size = map join_sp gs /\
    Forall Built gs /\ concat gs = split text.
Proof.
  intros text. unfold wrap_lines.
  destruct (split text) as [|w ws] eqn:E.
  - exists []. simpl. auto.
  - rewrite <- E. apply flush_inv.
    change (split text) with ([] ++ split text) at 1.
    apply loop_inv_run; [apply split_words | apply loop_inv_init].
Qed.

(** Joining joined groups is joining all their words. *)
Lemma join_sp_concat : forall gs,
  Forall (fun g => g <> []) gs ->
  join_sp (map join_sp gs) = join_sp (concat gs).
Proof.
  induction gs as [|g gs IH]; intros H; [reflexivity|].
  inversion H as [|? ? Hg Hgs]; subst.
  destruct gs as [|g' gs'].
  - simpl. rewrite app_nil_r. reflexivity.
  - change (join_sp (map join_sp (g :: g' :: gs')))
      with (join_sp g ++ space :: join_sp (map join_sp (g' :: gs'))).
    rewrite (IH Hgs).
    assert (Hc : concat (g' :: gs') <> []).
    { inversion Hgs; subst. simpl. destruct g'; [congruence | discriminate]. }
    change (concat (g :: g' :: gs')) with (g ++ concat (g' :: gs')).
    generalize dependent (concat (g' :: gs')). clear - Hg.
    intros l _ Hl.
    induction g as [|a g IHg]; [congruence|].
    destruct g as [|b g''].
    + simpl. destruct l; [congruence | reflexivity].
    + change (join_sp (a :: b :: g'')) with (a ++ space :: join_sp (b :: g'')).
      change ((a :: b :: g'') ++ l) with (a :: (b :: g'') ++ l).
      change (join_sp (a :: (b :: g'') ++ l))
        with (a ++ space :: join_sp ((b :: g'') ++ l)).
      rewrite <- IHg by discriminate.
      rewrite <- app_assoc. reflexivity.
Qed.

(** A greedy group, wrapped again on its own, is one line. *)
Lemma built_loop : forall g,
  Built g -> loop g ([], []) = (join_sp g, []).
Proof.
  induction 1 as [w Hw | g w Hg IH Hw Hf].
  - unfold wrap_loop, wrap_step. simpl. rewrite strip_space_cons.
    rewrite (strip_id w (word_starts Hw) (word_ends Hw)).
    destruct (Qleb (stringWidth w font size) max_width); reflexivity.
  - unfold wrap_loop in *. rewrite fold_left_app, IH. simpl.
    rewrite (strip_test (built_words Hg) Hw), Hf. reflexivity.
Qed.

Lemma built_wrap : forall g,
  Built g ->
  wrap_lines stringWidth (join_sp g) max_width font size = [join_sp g].
Proof.
  intros g Hg. unfold wrap_lines.
  rewrite (split_join_sp (built_words Hg)).
  pose proof (built_nonempty Hg) as Hne.
  destruct g as [|a g'] eqn:E; [congruence|]. rewrite <- E in *.
  rewrite (built_loop Hg). unfold flush.
  pose proof (join_sp_nonempty Hne (built_words Hg)) as Hj.
  destruct (join_sp g); [congruence | reflexivity].
Qed.

(** Every line returned by [wrap_lines] measures at most [max_width],
    except a line that is a single word of the text, unmodified, whose own
    measured width exceeds [max_width]; for every measure and width. *)
Lemma wrap_lines_width_bound : forall text,
  Forall (fun l =>
            (stringWidth l font size <= max_width)%Q \/
            (In l (split text) /\ (max_width < stringWidth l font size)%Q))
         (wrap_lines stringWidth text max_width font size).
Proof.
  intros text.
  destruct (wrap_lines_groups text) as (gs & -> & Hgs & Hc).
  apply Forall_forall. intros l Hl.
  apply in_map_iff in Hl. destruct Hl as (g & <- & Hg).
  rewrite Forall_forall in Hgs.
  destruct (built_fits_or_single (Hgs g Hg)) as [Hf | (w & -> & Hw & Hn)].
  - left. apply Qle_bool_iff. exact Hf.
  - right. simpl. split.
    + rewrite <- Hc. apply in_concat. exists [w]. split; [assumption | left; reflexivity].
    + apply Qnot_le_lt. intros Hle. apply Qle_bool_iff in Hle.
      unfold Qleb in Hn. congruence.
Qed.

(** A word of a group is a part of the joined group. *)
Lemma in_join_sp : forall g w,
  In w g -> exists a b, join_sp g = a ++ w ++ b.
Proof.
  induction g as [|x g IH]; intros w Hin; [destruct Hin|].
  destruct g as [|y g'].
  - destruct Hin as [-> | []]. exists [], []. simpl. rewrite app_nil_r.
    reflexivity.
  - change (join_sp (x :: y :: g')) with (x ++ space :: join_sp (y :: g')).
    destruct Hin as [-> | Hin].
    + exists [], (space :: join_sp (y :: g')). reflexivity.
    + destruct (IH w Hin) as (a & b & E). rewrite E.
      exists (x ++ space :: a), b. rewrite <- app_assoc. reflexivity.
Qed.

(** A group that holds a word wider than [max_width] holds nothing else. *)
Lemma built_wide_word_alone : forall g w,
  measure_monotone stringWidth font size ->
  Built g -> In w g ->
  (max_width < stringWidth w font size)%Q ->
  g = [w].
Proof.
  intros g w Hmono Hb Hin Hwide.
  destruct (built_fits_or_single Hb) as [Hf | (w' & -> & _ & _)].
  - exfalso. destruct (in_join_sp g w Hin) as (a & b & E).
    unfold fits in Hf. apply Qle_bool_iff in Hf. rewrite E in Hf.
    pose proof (Hmono a w b) as Hm.
    apply (Qlt_irrefl max_width).
    eapply Qlt_le_trans; [exact Hwide|].
    eapply Qle_trans; eassumption.
  - destruct Hin as [-> | []]. reflexivity.
Qed.

(** C3. For a text measure under which a string measures at least as much
    as any part of it, every line returned by [wrap_lines] measures at most
    [max_width], except a line that is a single word of the text,
    unmodified, whose own measured width exceeds [max_width]; and every
    such word is placed alone on its line: the lines are consecutive groups
    of the words of the text, a group that holds a word wider than
    [max_width] is that word alone, and the word is one of the lines. *)
Theorem wrap_lines_width : forall text,
  measure_monotone stringWidth font size ->
  Forall (fun l =>
            (stringWidth l font size <= max_width)%Q \/
            (In l (split text) /\ (max_width < stringWidth l font size)%Q))
         (wrap_lines stringWidth text max_width font size) /\
  (exists gs,
     wrap_lines stringWidth text max_width font size = map join_sp gs /\
     concat gs = split text /\
     forall g w,
       In g gs -> In w g ->
       (max_width < stringWidth w font size)%Q -> g = [w]) /\
  (forall w,
     In w (split text) ->
     (max_width < stringWidth w font size)%Q ->
     In w (wrap_lines stringWidth text max_width font size)).
Proof.
  intros text Hmono.
  split; [apply wrap_lines_width_bound|].
  destruct (wrap_lines_groups text) as (gs & E & Hgs & Hc).
  rewrite Forall_forall in Hgs.
  assert (Halone : forall g w,
            In g gs -> In w g ->
            (max_width < stringWidth w font size)%Q -> g = [w]).
  { intros g w Hg Hw Hwide.
    exact (built_wide_word_alone Hmono (Hgs g Hg) Hw Hwide). }
  split.
  - exists gs. auto.
  - intros w Hw Hwide. rewrite <- Hc in Hw.
    apply in_concat in Hw. destruct Hw as (g & Hg & Hwg).
    rewrite E. apply in_map_iff. exists g. split; [|exact Hg].
    rewrite (Halone g w Hg Hwg Hwide). reflexivity.
Qed.

(** C4. Joining the lines returned by [wrap_lines] with single spaces and
    splitting the result on white space gives back the word sequence of
    the text. *)
Theorem wrap_lines_words : forall text,
  split (join_sp (wrap_lines stringWidth text max_width font size))
  = split text.
Proof.
  intros text.
  destruct (wrap_lines_groups text) as (gs & -> & Hgs & Hc).
  rewrite join_sp_concat.
  - rewrite Hc. apply split_join_sp. apply split_words.
  - eapply Forall_impl; [|exact Hgs]. intros g Hg. exact (built_nonempty Hg).
Qed.

(** Any line of the output, wrapped again, is returned alone. *)
Lemma wrap_lines_rewrap : forall text L,
  In L (wrap_lines stringWidth text max_width font size) ->
  wrap_lines stringWidth L max_width font size = [L].
Proof.
  intros text L HL.
  destruct (wrap_lines_groups text) as (gs & E & Hgs & _).
  rewrite E in HL. apply in_map_iff in HL. destruct HL as (g & <- & Hg).
  rewrite Forall_forall in Hgs. apply built_wrap. auto.
Qed.

(** C5. A line of the output of [wrap_lines] whose measured width is at
    most [max_width], wrapped again with the same width, font and size, is
    returned as the one-element list holding that line. *)
Theorem wrap_lines_idempotent : forall text L,
  In L (wrap_lines stringWidth text max_width font size) ->
  (stringWidth L font size <= max_width)%Q ->
  wrap_lines stringWidth L max_width font size = [L].
Proof.
  intros text L HL _. exact (wrap_lines_rewrap text L HL).
Qed.

(** No line returned by [wrap_lines] is the empty string. *)
Lemma wrap_lines_nonempty : forall text,
  Forall (fun l => l <> []) (wrap_lines stringWidth text max_width font size).
Proof.
  intros text.
  destruct (wrap_lines_groups text) as (gs & -> & Hgs & _).
  apply Forall_forall. intros l Hl.
  apply in_map_iff in Hl. destruct Hl as (g & <- & Hg).
  rewrite Forall_forall in Hgs. specialize (Hgs g Hg).
  apply join_sp_nonempty; [exact (built_nonempty Hgs) | exact (built_words Hgs)].
Qed.

End WrapFacts.

(** The sample measure grows with the string when the size is not
    negative. *)
Lemma mono_width_monotone : forall font size,
  (0 <= size)%Q -> measure_monotone mono_width font size.
Proof.
  intros font size Hs a s b. unfold mono_width.
  apply Qmult_le_compat_r.
  - unfold Qofnat. rewrite <- Zle_Qle. rewrite !length_app. lia.
  - apply Qmult_le_0_compat; [discriminate | exact Hs].
Qed.

(** An instance of C3: a text with a word wider than 50 points, sample
    measure at size 10. *)
Lemma wrap_lines_width_witness :
  measure_monotone mono_width Helvetica 10 /\
  Forall (fun l =>
            (mono_width l Helvetica 10 <= 50)%Q \/
            (In l (split (lit "a incomprehensible b")) /\
             (50 < mono_width l Helvetica 10)%Q))
         (wrap_lines mono_width (lit "a incomprehensible b") 50 Helvetica 10) /\
  (exists gs,
     wrap_lines mono_width (lit "a incomprehensible b") 50 Helvetica 10
     = map join_sp gs /\
     concat gs = split (lit "a incomprehensible b") /\
     forall g w,
       In g gs -> In w g ->
       (50 < mono_width w Helvetica 10)%Q -> g = [w]) /\
  (forall w,
     In w (split (lit "a incomprehensible b")) ->
     (50 < mono_width w Helvetica 10)%Q ->
     In w (wrap_lines mono_width (lit "a incomprehensible b") 50 Helvetica 10)).
Proof.
  assert (H : measure_monotone mono_width Helvetica 10)
    by (apply mono_width_monotone; discriminate).
  split; [exact H|].
  exact (@wrap_lines_width mono_width 50%Q Helvetica 10%Q
           (lit "a incomprehensible b") H).
Defined.

(** An instance of C5: with the sample measure, "Hello world" wrapped at 40
    points gives the line "Hello", which wraps to itself. *)
Lemma wrap_lines_idempotent_witness :
  In (lit "Hello") (wrap_lines mono_width (lit "Hello world") 40 Helvetica 10) /\
  (mono_width (lit "Hello") Helvetica 10 <= 40)%Q /\
  wrap_lines mono_width (lit "Hello") 40 Helvetica 10 = [lit "Hello"].
Proof.
  assert (H1 : In (lit "Hello")
                 (wrap_lines mono_width (lit "Hello world") 40 Helvetica 10))
    by (vm_compute; left; reflexivity).
  assert (H2 : (mono_width (lit "Hello") Helvetica 10 <= 40)%Q)
    by (vm_compute; discriminate).
  split; [exact H1 | split; [exact H2 |]].
  exact (@wrap_lines_idempotent mono_width 40%Q Helvetica 10%Q
           (lit "Hello world") (lit "Hello") H1 H2).
Defined.

(* ================================================================= *)
(** ** Bordered cards and the education grid *)

Lemma bind_fst : forall A B (m : W A) (k : A -> W B),
  fst (bind m k) = fst (k (fst m)).
Proof.
  intros A B [a t] k. unfold bind. simpl. destruct (k a); reflexivity.
Qed.

Lemma bind_trace : forall A B (m : W A) (k : A -> W B),
  trace (bind m k) = trace m ++ trace (k (fst m)).
Proof.
  intros A B [a t] k. unfold bind, trace. simpl. destruct (k a); reflexivity.
Qed.

(** [draw_boxed_block] returns the top it was given and the box height. *)
Lemma draw_boxed_block_result :
  forall x y width lines padding font size leading line_gap,
    fst (draw_boxed_block x y width lines padding font size leading line_gap)
    = (y, box_height padding leading line_gap (length lines)).
Proof.
  intros. unfold draw_boxed_block. rewrite !bind_fst. reflexivity.
Qed.

Lemma Qofnat_S : forall n, (Qofnat (S n) == Qofnat n + 1)%Q.
Proof.
  intros n. unfold Qofnat. rewrite Nat2Z.inj_succ. unfold Z.succ.
  rewrite inject_Z_plus. reflexivity.
Qed.

Lemma Qofnat_nonneg : forall n, (0 <= Qofnat n)%Q.
Proof.
  intros n. unfold Qofnat. change 0%Q with (inject_Z 0).
  rewrite <- Zle_Qle. lia.
Qed.

(** C7 (amended). [draw_boxed_block] returns the top it was given and the
    box height 2 x padding + lines x leading + max(0, lines - 1) x gap: the
    stated formula when there is at least one line, and 2 x padding alone
    for zero lines.  With the gap 0 of every call the program makes, the
    stated formula gives the same height for any number of lines. *)
Theorem box_height_formula :
  forall x y width lines padding font size leading line_gap,
    let r := fst (draw_boxed_block x y width lines padding font size
                    leading line_gap) in
    let r0 := fst (draw_boxed_block x y width lines padding font size
                     leading 0) in
    let n := Qofnat (length lines) in
    fst r = y /\
    (snd r == 2 * padding + n * leading
              + (if (length lines =? 0)%nat then 0 else n - 1) * line_gap)%Q /\
    (snd r0 == 2 * padding + n * leading + (n - 1) * 0)%Q.
Proof.
  intros. subst r r0 n. rewrite !draw_boxed_block_result. cbn [fst snd].
  split; [reflexivity|]. unfold box_height.
  destruct (length lines) as [|k].
  - change (inject_Z (Z.max 0 (Z.of_nat 0 - 1))) with 0%Q.
    cbn [Nat.eqb]. split; ring.
  - replace (Z.max 0 (Z.of_nat (S k) - 1)) with (Z.of_nat k) by lia.
    change (inject_Z (Z.of_nat k)) with (Qofnat k).
    cbn [Nat.eqb]. rewrite Qofnat_S. split; ring.
Qed.

(** C7, as stated, fails for zero lines when the gap is not zero: the code
    gives 12 where the formula gives 11. *)
Lemma box_height_zero_lines_counterexample :
  ~ (snd (fst (draw_boxed_block 0 0 100 [] 6 Helvetica 9.5 11 1))
     == 2 * 6 + Qofnat 0 * 11 + (Qofnat 0 - 1) * 1)%Q.
Proof. vm_compute. discriminate. Qed.

Lemma pymax_same : forall a, pymax a a = a.
Proof. intros a. unfold pymax. destruct (Qltb a a); reflexivity. Qed.

Lemma pad_row_lengths : forall left_lines right_lines,
  length (fst (pad_row left_lines right_lines true))
  = Nat.max (length left_lines) (length right_lines) /\
  length (snd (pad_row left_lines right_lines true))
  = Nat.max (length left_lines) (length right_lines).
Proof.
  intros l r. unfold pad_row. simpl.
  split.
  - destruct (Nat.ltb_spec (length l) (Nat.max (length l) (length r))).
    + rewrite length_app, repeat_length. lia.
    + lia.
  - destruct (Nat.ltb_spec (length r) (Nat.max (length l) (length r))).
    + rewrite length_app, repeat_length. lia.
    + lia.
Qed.

(** C6. For left and right line blocks of lengths m and n, both padded
    blocks have length max(m, n); the heights [draw_boxed_block] computes
    for the two cards (same padding, leading and gap) are the same, and
    the row height, their maximum, is that height. *)
Theorem card_pairing :
  forall left_lines right_lines xl xr y width padding font size leading line_gap,
    let padded := pad_row left_lines right_lines true in
    let h_left :=
      snd (fst (draw_boxed_block xl y width (fst padded) padding font size
                  leading line_gap)) in
    let h_right :=
      snd (fst (draw_boxed_block xr y width (snd padded) padding font size
                  leading line_gap)) in
    length (fst padded) = Nat.max (length left_lines) (length right_lines) /\
    length (snd padded) = Nat.max (length left_lines) (length right_lines) /\
    h_left = h_right /\
    pymax h_left h_right = h_left /\
    pymax h_left h_right = h_right.
Proof.
  intros. subst h_left h_right padded.
  destruct (pad_row_lengths left_lines right_lines) as [Hl Hr].
  rewrite !draw_boxed_block_result. cbn [snd].
  rewrite Hl, Hr. rewrite pymax_same. auto.
Qed.

Section CardFacts.

Variable stringWidth : str -> Font -> Q -> Q.

Lemma card_lines_nonempty : forall item,
  Forall (fun l => l <> []) (card_lines stringWidth item).
Proof.
  intros item. unfold card_lines.
  apply Forall_app; split; apply wrap_lines_nonempty.
Qed.

Lemma pad_row_shape : forall left_lines right_lines right_present,
  exists k k',
    pad_row left_lines right_lines right_present
    = (left_lines ++ repeat [] k, right_lines ++ repeat [] k').
Proof.
  intros l r p. unfold pad_row.
  set (m := Nat.max (length l) (if p then length r else 0%nat)).
  destruct (length l <? m)%nat; destruct (p && (length r <? m)%nat)%bool.
  - exists (m - length l)%nat, (m - length r)%nat. reflexivity.
  - exists (m - length l)%nat, 0%nat. simpl. rewrite app_nil_r. reflexivity.
  - exists 0%nat, (m - length r)%nat. simpl. rewrite app_nil_r. reflexivity.
  - exists 0%nat, 0%nat. simpl. rewrite !app_nil_r. reflexivity.
Qed.

(** C10. No string returned by [wrap_lines] is empty; the line block of an
    education card holds no empty string before padding, and the padding
    step only appends empty strings to the two blocks. *)
Theorem wrap_lines_no_empty_line :
  (forall text max_width font size,
     Forall (fun l => l <> [])
       (wrap_lines stringWidth text max_width font size)) /\
  (forall item, Forall (fun l => l <> []) (card_lines stringWidth item)) /\
  (forall left_lines right_lines right_present,
     exists k k',
       pad_row left_lines right_lines right_present
       = (left_lines ++ repeat [] k, right_lines ++ repeat [] k')).
Proof.
  split; [|split].
  - intros. apply wrap_lines_nonempty.
  - apply card_lines_nonempty.
  - apply pad_row_shape.
Qed.

End CardFacts.

(* ================================================================= *)
(** ** The minimal document *)

Section MinimalDocument.

Variable stringWidth : str -> Font -> Q -> Q.

(** The same loop serves [wrap_lines] and [draw_wrapped_text]. *)
Lemma flush_loop_wrap_lines : forall text max_width font size,
  flush (wrap_loop stringWidth max_width font size (split text) ([], []))
  = wrap_lines stringWidth text max_width font size.
Proof.
  intros. unfold wrap_lines. destruct (split text); reflexivity.
Qed.

(** "Hello world" is wrapped into one line or, if that does not fit, two. *)
Lemma hello_world_lines : forall max_width font size,
  let lines := wrap_lines stringWidth (lit "Hello world") max_width font size in
  lines = [lit "Hello world"] \/ lines = [lit "Hello"; lit "world"].
Proof.
  intros max_width font size. cbv zeta.
  assert (H1 : wrap_step stringWidth max_width font size ([], []) (lit "Hello")
               = (lit "Hello", [])).
  { unfold wrap_step.
    change (strip ([] ++ space :: lit "Hello")) with (lit "Hello").
    destruct (Qleb (stringWidth (lit "Hello") font size) max_width);
      reflexivity. }
  assert (H2 : wrap_lines stringWidth (lit "Hello world") max_width font size
               = flush (wrap_step stringWidth max_width font size
                          (lit "Hello", []) (lit "world"))).
  { unfold wrap_lines.
    change (split (lit "Hello world")) with [lit "Hello"; lit "world"].
    unfold wrap_loop. cbn [fold_left]. rewrite H1. reflexivity. }
  rewrite H2. unfold wrap_step.
  change (strip (lit "Hello" ++ space :: lit "world")) with (lit "Hello world").
  destruct (Qleb (stringWidth (lit "Hello world") font size) max_width);
    [left | right]; reflexivity.
Qed.

(** What is drawn for the minimal document, whatever the text measure. *)
Lemma minimal_render :
  let l := ops (compose stringWidth minimal_doc) in
  length (pages l) = 1%nat /\
  texts l = [lit "A"; lit "b@x.com"; lit "CAREER OBJECTIVE"]
            ++ wrap_lines stringWidth (lit "Hello world") content_w Helvetica 10
            ++ [lit "SKILLS SNAPSHOT"; lit "EXPERIENCE"; lit "EDUCATION"] /\
  rects l = [page_border_rect].
Proof.
  cbv zeta. unfold compose, section_objective, draw_wrapped_text.
  change (get_or (career_objective minimal_doc) []) with (lit "Hello world").
  rewrite flush_loop_wrap_lines.
  destruct (hello_world_lines content_w Helvetica 10) as [-> | ->];
    vm_compute; auto.
Qed.

(** C1 (amended). For the minimal document the render has exactly one
    page; the strings drawn are the header "A", the contact line, the
    CAREER OBJECTIVE title with the wrapped "Hello world" paragraph, and the
    titles SKILLS SNAPSHOT, EXPERIENCE and EDUCATION with nothing under
    them; the only rectangle is the page border. *)
Theorem minimal_document_render :
  let l := ops (compose stringWidth minimal_doc) in
  let paragraph :=
    wrap_lines stringWidth (lit "Hello world") content_w Helvetica 10 in
  length (pages l) = 1%nat /\
  join_sp paragraph = lit "Hello world" /\
  texts l = [lit "A"; lit "b@x.com"; lit "CAREER OBJECTIVE"]
            ++ paragraph
            ++ [lit "SKILLS SNAPSHOT"; lit "EXPERIENCE"; lit "EDUCATION"] /\
  rects l = [page_border_rect].
Proof.
  cbv zeta. destruct minimal_render as (Hp & Ht & Hr).
  repeat split; try assumption.
  destruct (hello_world_lines content_w Helvetica 10) as [-> | ->];
    reflexivity.
Qed.

End MinimalDocument.

(** C1, as stated, fails: under every text measure the titles of the
    skills, experience and education sections are drawn. *)
Lemma minimal_document_counterexample :
  ~ exists stringWidth, minimal_render_untitled stringWidth.
Proof.
  intros (sw & _ & _ & _ & Hs & _). apply Hs.
  destruct (minimal_render sw) as (_ & -> & _).
  apply in_or_app. right. apply in_or_app. right. left. reflexivity.
Qed.

(* ================================================================= *)
(** ** The editing surface *)

Lemma str_eqb_eq : forall a b, str_eqb a b = true -> a = b.
Proof.
  intros a b. unfold str_eqb. destruct (str_eq_dec a b); [auto | discriminate].
Qed.

Lemma fs_read_write_other : forall path other content fs,
  other <> path ->
  fs_read other (fs_write path content fs) = fs_read other fs.
Proof.
  intros path other content fs Hne.
  induction fs as [|[p c] fs IH]; simpl.
  - destruct (str_eqb path other) eqn:E; [|reflexivity].
    apply str_eqb_eq in E. congruence.
  - destruct (str_eqb p path) eqn:E1; simpl.
    + apply str_eqb_eq in E1. subst p.
      destruct (str_eqb path other) eqn:E2; [|reflexivity].
      apply str_eqb_eq in E2. congruence.
    + destruct (str_eqb p other); [reflexivity | exact IH].
Qed.

Lemma fs_read_write_same : forall path content fs,
  fs_read path (fs_write path content fs) = Some content.
Proof.
  intros path content fs.
  assert (R : str_eqb path path = true).
  { unfold str_eqb. destruct (str_eq_dec path path); congruence. }
  induction fs as [|[p c] fs IH]; simpl.
  - rewrite R. reflexivity.
  - destruct (str_eqb p path) eqn:E; simpl.
    + rewrite E. reflexivity.
    + rewrite E. exact IH.
Qed.

Section AppFacts.

Variable stringWidth : str -> Font -> Q -> Q.
Variable Json : Type.
Variable json_loads : str -> Exn + Json.
Variable json_dumps : Json -> nat -> str.
Variable as_document : Json -> Exn + ResumeDocument.
Variable pdf_bytes : list Op -> str.
Variable rejected_late : Json -> bool.

Local Notation "'Generate'" :=
  (generate stringWidth json_loads json_dumps as_document pdf_bytes
     rejected_late).

(** What the handler's text does with a text [json.loads] rejects: nothing
    but showing the parser's message. *)
Lemma generate_rejected_text : forall w edited e,
  json_loads edited = inl e ->
  Generate edited w = (w, [ErrorMsg e]).
Proof. intros w edited e H. unfold generate. rewrite H. reflexivity. Qed.

Lemma generate_persists : forall w edited data,
  json_loads edited = inr data ->
  fs_read JSON_PATH (files (fst (Generate edited w)))
  = Some (json_dumps data 2).
Proof.
  intros w edited data Hok. unfold generate. rewrite Hok.
  destruct (create_resume_pdf _ _ _ _ _ _ _) as [e | w'] eqn:E;
    cbn [fst files]; [apply fs_read_write_same|].
  unfold create_resume_pdf in E. cbn [files stdout] in E.
  destruct (fs_read (lit "resume_data.json") _); [|discriminate].
  destruct (json_loads s); [discriminate|].
  destruct (as_document j); [discriminate|].
  inversion E; subst w'; clear E. cbn [files].
  rewrite fs_read_write_other by (vm_compute; discriminate).
  apply fs_read_write_same.
Qed.


(** What Generate does on valid JSON: the parsed value is written back to
    the input file with indentation 2, and the render, when it succeeds,
    writes its PDF to the path "RachitS_Resume.pdf"; the page then shows
    the string of lines 310-317 and the success message. *)
Lemma generate_valid_json : forall w edited data,
  json_loads edited = inr data ->
  let w' := fst (Generate edited w) in
  fs_read JSON_PATH (files w') = Some (json_dumps data 2) /\
  (forall doc,
     json_loads (json_dumps data 2) = inr data ->
     as_document data = inr doc ->
     fs_read (lit "RachitS_Resume.pdf") (files w')
     = Some (pdf_bytes (ops (compose stringWidth doc))) /\
     snd (Generate edited w)
     = [Write highlights_text;
        SuccessMsg (lit "PDF generated successfully!")]).
Proof.
  intros w edited data Hok. cbv zeta.
  split; [apply generate_persists; exact Hok|].
  intros doc Hre Hdoc. unfold generate. rewrite Hok.
  unfold create_resume_pdf, render_writes. cbn [files stdout].
  change (lit "resume_data.json") with JSON_PATH.
  rewrite fs_read_write_same, Hre, Hdoc. cbn [fst snd files].
  split; [apply fs_read_write_same | reflexivity].
Qed.

(** C9 (the defect). Generate never touches the file the download action
    serves: whatever is submitted, the download action offers after
    Generate exactly what it offered before. *)
Theorem generate_leaves_download_unchanged : forall edited w,
  download (fst (Generate edited w)) = download w.
Proof.
  intros edited w. unfold download, generate.
  destruct (json_loads edited) as [e | data]; [reflexivity|].
  assert (Hj : fs_read OUTPUT_PDF
                 (fs_write JSON_PATH (json_dumps data 2) (files w))
               = fs_read OUTPUT_PDF (files w))
    by (apply fs_read_write_other; vm_compute; discriminate).
  destruct (create_resume_pdf _ _ _ _ _ _ _) as [e | w'] eqn:E;
    cbn [fst files]; [rewrite Hj; reflexivity|].
  unfold create_resume_pdf in E. cbn [files stdout] in E.
  destruct (fs_read (lit "resume_data.json") _); [|discriminate].
  destruct (json_loads s); [discriminate|].
  destruct (as_document j); [discriminate|].
  inversion E; subst w'; clear E. cbn [files].
  rewrite fs_read_write_other by (vm_compute; discriminate).
  rewrite Hj. reflexivity.
Qed.

End AppFacts.


(** The same run, evaluated: the stored input file changes from the empty
    object to NaN and the page shows the render's error. *)
Example generate_nan_run :
  let r := generate mono_width lenient_loads lenient_dumps
             lenient_as_document sample_pdf_bytes never_late (lit "NaN")
             sample_world in
  fs_read JSON_PATH (files sample_world) = Some (lit "{}") /\
  fs_read JSON_PATH (files (fst r)) = Some (lit "NaN") /\
  snd r = [ErrorMsg (lit "'float' object has no attribute 'get'")].
Proof. vm_compute. auto. Qed.

(** The defect of C9 on a run of the handler: valid JSON is submitted, the
    page reports success and the PDF is written, but the download action
    has nothing to serve. *)
Example generate_then_no_download :
  let r := generate mono_width sample_loads sample_dumps sample_as_document
             sample_pdf_bytes never_late minimal_json sample_world in
  In (SuccessMsg (lit "PDF generated successfully!")) (snd r) /\
  fs_exists (lit "RachitS_Resume.pdf") (files (fst r)) = true /\
  fs_read JSON_PATH (files (fst r)) = Some minimal_json /\
  download (fst r) = [].
Proof. vm_compute. intuition. Qed.

(* ================================================================= *)
(** ** The vertical cursor *)

Lemma check_app : forall t1 t2 b,
  check b (t1 ++ t2)
  = match check b t1 with Some b' => check b' t2 | None => None end.
Proof.
  induction t1 as [|e t1 IH]; intros t2 b; simpl; [reflexivity|].
  destruct (cur e) as [y|]; [destruct (Qleb y b)|]; auto.
Qed.

Lemma triple_seq : forall A B (P : Q -> Prop) (m : W A) R1
    (k : A -> W B) R2,
  triple P m R1 -> (forall a, triple (R1 a) (k a) R2) ->
  triple P (bind m k) R2.
Proof.
  intros A B P m R1 k R2 H1 H2 b HP.
  destruct (H1 b HP) as (b1 & E1 & HR1).
  destruct (H2 (fst m) b1 HR1) as (b2 & E2 & HR2).
  exists b2. rewrite bind_trace, check_app, E1, bind_fst. auto.
Qed.

Lemma triple_ret : forall A (P : Q -> Prop) (a : A) (R : A -> Q -> Prop),
  (forall b, P b -> R a b) -> triple P (ret a) R.
Proof. intros A P a R H b HP. exists b. simpl. auto. Qed.

Lemma triple_pre : forall A (P P' : Q -> Prop) (m : W A) R,
  (forall b, P' b -> P b) -> triple P m R -> triple P' m R.
Proof. intros A P P' m R H Hm b HP. apply Hm, H, HP. Qed.

Lemma triple_post : forall A (P : Q -> Prop) (m : W A)
    (R R' : A -> Q -> Prop),
  (forall a b, R a b -> R' a b) -> triple P m R -> triple P m R'.
Proof.
  intros A P m R R' H Hm b HP.
  destruct (Hm b HP) as (b' & E & HR). eauto.
Qed.

Lemma triple_call : forall y o,
  is_showpage o = false -> triple (At y) (call y o) (fun _ => At y).
Proof.
  intros y o Ho b HP. exists y. unfold At in *. simpl.
  apply Qle_bool_iff in HP. unfold Qleb. rewrite HP.
  split; [destruct o; try reflexivity; discriminate | apply Qle_refl].
Qed.

Lemma triple_showpage : forall y,
  triple (At y) (call y ShowPage) (fun _ => At (PAGE_H - top)%Q).
Proof.
  intros y b HP. exists (PAGE_H - top)%Q. unfold At in *. simpl.
  apply Qle_bool_iff in HP. unfold Qleb. rewrite HP.
  split; [reflexivity | apply Qle_refl].
Qed.

Lemma triple_nocursor : forall (P : Q -> Prop) o,
  triple P (call_nocursor o) (fun _ => P).
Proof. intros P o b HP. exists b. simpl. auto. Qed.

(** Discharging the precondition of the next call from the current one. *)
Ltac cursor_pre :=
  let b := fresh "b" in
  let H := fresh "H" in
  intros b H; unfold At, MIN_LINE_GAP in *; cbn beta in *;
  first [exact H | lra].

(** One call, then the rest. *)
Ltac cursor_call :=
  eapply triple_seq;
  [ eapply triple_pre; [| apply triple_call; reflexivity]; cursor_pre
  | let u := fresh "u" in intros u ].

(** One function with a proved specification [spec], then the rest. *)
Ltac cursor_use spec :=
  eapply triple_seq;
  [ eapply triple_pre; [| apply spec]; try cursor_pre;
    try (unfold MIN_LINE_GAP; lra)
  | let r := fresh "y" in intros r ].

Ltac cursor_ret := apply triple_ret; cursor_pre.

Lemma new_page_if_needed_spec : forall ypos,
  triple (At ypos) (new_page_if_needed ypos) (fun r => At r).
Proof.
  intros ypos. unfold new_page_if_needed.
  destruct (Qltb ypos (bottom + 2 * cm)).
  - eapply triple_seq; [apply triple_showpage|].
    intros ?. apply triple_ret. auto.
  - apply triple_ret. auto.
Qed.

Lemma draw_text_lines_spec : forall x leading lines y,
  (0 <= leading)%Q ->
  triple (At y) (draw_text_lines x y leading lines) (fun r => At r).
Proof.
  intros x leading lines.
  induction lines as [|ln rest IH]; intros y Hl; cbn [draw_text_lines].
  - cursor_ret.
  - cursor_call. eapply triple_pre; [| apply IH; exact Hl]. cursor_pre.
Qed.

Lemma draw_section_title_spec : forall title x y size,
  triple (At y) (draw_section_title title x y size) (fun r => At r).
Proof.
  intros. unfold draw_section_title.
  cursor_call. cursor_call. cursor_ret.
Qed.

Lemma draw_divider_spec : forall x_start x_end y thickness,
  triple (At y) (draw_divider x_start x_end y thickness) (fun r => At r).
Proof.
  intros. unfold draw_divider.
  cursor_call. cursor_call. cursor_ret.
Qed.

Lemma draw_box_lines_spec : forall y x padding leading line_gap lines ty,
  triple (At y) (draw_box_lines y x padding leading line_gap ty lines)
    (fun _ => At y).
Proof.
  intros y x padding leading line_gap lines.
  induction lines as [|ln rest IH]; intros ty; cbn [draw_box_lines].
  - cursor_ret.
  - cursor_call. apply IH.
Qed.

Lemma box_height_nonneg : forall padding leading line_gap n,
  (0 <= padding)%Q -> (0 <= leading)%Q -> (0 <= line_gap)%Q ->
  (0 <= box_height padding leading line_gap n)%Q.
Proof.
  intros padding leading line_gap n Hp Hl Hg. unfold box_height.
  assert (H1 : (0 <= Qofnat n * leading)%Q)
    by (apply Qmult_le_0_compat; [apply Qofnat_nonneg | exact Hl]).
  assert (H2 : (0 <= inject_Z (Z.max 0 (Z.of_nat n - 1)) * line_gap)%Q).
  { apply Qmult_le_0_compat; [|exact Hg].
    change 0%Q with (inject_Z 0). rewrite <- Zle_Qle. lia. }
  lra.
Qed.

Lemma draw_boxed_block_spec :
  forall x y width lines padding font size leading line_gap,
    (0 <= padding)%Q -> (0 <= leading)%Q -> (0 <= line_gap)%Q ->
    triple (At y)
      (draw_boxed_block x y width lines padding font size leading line_gap)
      (fun r b => At y b /\ (0 <= snd r)%Q).
Proof.
  intros x y width lines padding font size leading line_gap Hp Hl Hg.
  unfold draw_boxed_block. cbv zeta.
  cursor_call. cursor_call. cursor_call. cursor_call.
  eapply triple_seq; [apply draw_box_lines_spec|].
  intros ?. apply triple_ret. intros b H. split; [exact H|].
  simpl. apply box_height_nonneg; assumption.
Qed.

Lemma pymax_nonneg : forall a b, (0 <= b)%Q -> (0 <= pymax a b)%Q.
Proof.
  intros a b Hb. unfold pymax, Qltb.
  destruct (Qle_bool b a) eqn:E; simpl; [|exact Hb].
  apply Qle_bool_iff in E. eapply Qle_trans; eassumption.
Qed.

Lemma for_each_spec : forall A (body : Q -> A -> W Q),
  (forall y item, triple (At y) (body y item) (fun r => At r)) ->
  forall items y,
    triple (At y) (for_each body items y) (fun r => At r).
Proof.
  intros A body Hbody items.
  induction items as [|item rest IH]; intros y; cbn [for_each].
  - cursor_ret.
  - cursor_use (Hbody y item). apply IH.
Qed.

Section CursorFacts.

Variable stringWidth : str -> Font -> Q -> Q.

Lemma draw_wrapped_text_spec :
  forall text x y max_width font size leading min_gap,
    (0 <= leading)%Q -> (0 <= min_gap)%Q ->
    triple (At y)
      (draw_wrapped_text stringWidth text x y max_width font size leading
         min_gap)
      (fun r => At r).
Proof.
  intros text x y max_width font size leading min_gap Hl Hg.
  unfold draw_wrapped_text. cbv zeta.
  cursor_call.
  cursor_use (@draw_text_lines_spec x leading
                (flush (wrap_loop stringWidth max_width font size
                          (split text) ([], []))) y Hl).
  cursor_ret.
Qed.

Lemma draw_bullet_items_spec :
  forall bullets x y max_width font size leading bullet_indent,
    (0 <= leading)%Q ->
    triple (At y)
      (draw_bullet_items stringWidth bullets x y max_width font size leading
         bullet_indent)
      (fun r => At r).
Proof.
  intros bullets x y max_width font size leading bullet_indent Hl.
  revert y.
  induction bullets as [|b rest IH]; intros y; cbn [draw_bullet_items].
  - cursor_ret.
  - cursor_call.
    cursor_use (@draw_wrapped_text_spec b (x + bullet_indent)%Q y
                  (max_width - bullet_indent)%Q font size leading
                  MIN_LINE_GAP Hl).
    cbv zeta. eapply triple_pre; [| apply IH]. cursor_pre.
Qed.

Lemma draw_bullets_spec :
  forall bullets x y max_width font size leading bullet_indent,
    (0 <= leading)%Q ->
    triple (At y)
      (draw_bullets stringWidth bullets x y max_width font size leading
         bullet_indent)
      (fun r => At r).
Proof.
  intros bullets x y max_width font size leading bullet_indent Hl.
  unfold draw_bullets. cursor_call.
  apply draw_bullet_items_spec. exact Hl.
Qed.

Lemma skill_row_spec : forall y item,
  triple (At y) (skill_row stringWidth y item) (fun r => At r).
Proof.
  intros y item. unfold skill_row. cbv zeta.
  cursor_use new_page_if_needed_spec.
  cursor_call. cursor_call.
  cursor_use (@draw_wrapped_text_spec (dict_get item (lit "value") [])
                value_x y0 value_w Helvetica 10%Q 12%Q MIN_LINE_GAP).
  cursor_ret.
Qed.

Lemma exp_block_spec : forall company role_line bullets y,
  triple (At y) (exp_block stringWidth company role_line bullets y)
    (fun r => At r).
Proof.
  intros company role_line bullets y. unfold exp_block. cbv zeta.
  cursor_use new_page_if_needed_spec.
  cursor_call. cursor_call. cursor_call.
  cursor_use (@draw_wrapped_text_spec role_line left (y0 - 13)%Q content_w
                HelveticaBold 10%Q 12%Q MIN_LINE_GAP).
  cursor_use (@draw_bullets_spec bullets left (y1 - 2)%Q content_w
                Helvetica 10%Q 12%Q 10%Q).
  cursor_ret.
Qed.

Lemma reference_row_spec : forall y r,
  triple (At y) (reference_row stringWidth y r) (fun r => At r).
Proof.
  intros y r. unfold reference_row.
  cursor_use new_page_if_needed_spec.
  cursor_use (@draw_wrapped_text_spec r left y0 content_w Helvetica 8%Q 6%Q
                MIN_LINE_GAP).
  cursor_ret.
Qed.

Lemma card_block_spec : forall x y lines,
  triple (At y)
    (draw_boxed_block x y col_w lines card_padding card_font card_size
       card_leading 0)
    (fun r b => At y b /\ (0 <= snd r)%Q).
Proof.
  intros. apply draw_boxed_block_spec; unfold card_padding, card_leading; lra.
Qed.

Lemma edu_row_spec : forall left_item right_item y,
  triple (At y) (edu_row stringWidth left_item right_item y)
    (fun r => At r).
Proof.
  intros left_item right_item y. unfold edu_row.
  eapply triple_seq with (R1 := fun r => At r).
  { destruct (Qltb y (bottom + 4 * cm)).
    - eapply triple_seq; [apply triple_showpage|].
      intros ?. apply triple_ret. auto.
    - apply triple_ret. auto. }
  intros y'. cbv zeta.
  destruct (pad_row _ _ _) as [left_lines right_lines].
  eapply triple_seq; [apply card_block_spec|].
  intros r1. cbv beta.
  eapply triple_seq with
    (R1 := fun h b => At y' b /\ (0 <= h)%Q).
  { destruct (match right_item with
              | Some d => dict_truthy d
              | None => false
              end).
    - eapply triple_seq.
      + eapply triple_pre; [| apply card_block_spec].
        intros b [H _]. exact H.
      + intros r2. apply triple_ret. cbv beta.
        intros b [H Hr2]. split; [exact H|].
        apply pymax_nonneg. exact Hr2.
    - apply triple_ret. auto. }
  intros h. apply triple_ret. intros b [H Hh].
  unfold At in *. lra.
Qed.

Lemma edu_rows_spec : forall edu_items y,
  triple (At y) (edu_rows stringWidth edu_items y) (fun r => At r).
Proof.
  fix IH 1. intros [|left_item [|right_item rest]] y; cbn [edu_rows].
  - apply triple_ret. auto.
  - apply edu_row_spec.
  - eapply triple_seq; [apply edu_row_spec|].
    intros y'. apply IH.
Qed.

Lemma header_spec : forall data,
  triple (At (PAGE_H - top)%Q) (header data) (fun r => At r).
Proof.
  intros data. unfold header. cbv zeta.
  cursor_call. cursor_call. cursor_call. cursor_call. cursor_ret.
Qed.

Lemma section_objective_spec : forall data y,
  triple (At y) (section_objective stringWidth data y) (fun r => At r).
Proof.
  intros data y. unfold section_objective. cbv zeta.
  cursor_use draw_divider_spec.
  cursor_use new_page_if_needed_spec.
  cursor_use draw_section_title_spec.
  cursor_use (@draw_wrapped_text_spec (get_or (career_objective data) [])
                left y2 content_w Helvetica 10%Q 12%Q MIN_LINE_GAP).
  cursor_ret.
Qed.

Lemma section_skills_spec : forall data y,
  triple (At y) (section_skills stringWidth data y) (fun r => At r).
Proof.
  intros data y. unfold section_skills. cbv zeta.
  cursor_use new_page_if_needed_spec.
  cursor_use draw_section_title_spec.
  cursor_use (@for_each_spec Dict (skill_row stringWidth) skill_row_spec
                (or_nil (skills_snapshot data))).
  cursor_ret.
Qed.

Lemma section_experience_spec : forall data y,
  triple (At y) (section_experience stringWidth data y) (fun r => At r).
Proof.
  intros data y. unfold section_experience.
  cursor_use new_page_if_needed_spec.
  cursor_use draw_section_title_spec.
  apply for_each_spec.
  intros y' exp. apply exp_block_spec.
Qed.

Lemma section_certifications_spec : forall data y,
  triple (At y) (section_certifications stringWidth data y) (fun r => At r).
Proof.
  intros data y. unfold section_certifications. cbv zeta.
  destruct (or_nil (certifications data)) as [|c certs].
  - apply triple_ret. auto.
  - cursor_use new_page_if_needed_spec.
    cursor_use draw_section_title_spec.
    cursor_use (@draw_bullets_spec (Some (c :: certs)) left y1 content_w
                  Helvetica 10%Q 12%Q 10%Q).
    cursor_use draw_divider_spec.
    cursor_ret.
Qed.

Lemma section_reference_spec : forall data y,
  triple (At y) (section_reference stringWidth data y) (fun r => At r).
Proof.
  intros data y. unfold section_reference. cbv zeta.
  destruct (or_nil (references data)) as [|r refs].
  - apply triple_ret. auto.
  - cursor_use new_page_if_needed_spec.
    cursor_use draw_section_title_spec.
    apply for_each_spec. apply reference_row_spec.
Qed.

End CursorFacts.

Section CursorDiscipline.

Variable stringWidth : str -> Font -> Q -> Q.

Lemma before_education_spec : forall data,
  triple (At (PAGE_H - top)%Q) (before_education stringWidth data)
    (fun r => At r).
Proof.
  intros data. unfold before_education, draw_page_border.
  eapply triple_seq.
  { eapply triple_seq; [apply triple_nocursor|]. intros ?.
    eapply triple_seq; [apply triple_nocursor|]. intros ?.
    apply triple_nocursor. }
  intros ?. cbv beta.
  cursor_use header_spec.
  cursor_use section_objective_spec.
  cursor_use section_skills_spec.
  apply section_experience_spec.
Qed.

Lemma after_education_title_spec : forall data y,
  triple (At y) (after_education_title stringWidth data y)
    (fun _ _ => True).
Proof.
  intros data y. unfold after_education_title.
  cursor_use edu_rows_spec.
  cursor_use section_certifications_spec.
  cursor_use section_reference_spec.
  eapply triple_post; [| apply triple_call; reflexivity]. auto.
Qed.

(** The calls of [compose]: those before the EDUCATION title, the two
    calls of the title, and those after the adjustment of line 239. *)
Lemma compose_split : forall data,
  let y0 := fst (before_education stringWidth data) in
  trace (compose stringWidth data)
  = (trace (before_education stringWidth data)
     ++ [mkEvent (Some y0) (SetFont HelveticaBold 11)])
    ++ education_title y0
    :: trace (after_education_title stringWidth data
                (y0 - (14 + MIN_LINE_GAP) + 15)%Q).
Proof.
  intros data. cbv zeta.
  unfold compose, before_education, after_education_title, section_education,
    draw_section_title.
  repeat rewrite ?bind_trace, ?bind_fst. cbv zeta.
  repeat rewrite <- app_assoc.
  reflexivity.
Qed.

Lemma new_page_if_needed_cases : forall ypos,
  new_page_if_needed ypos = (ypos, []) \/
  new_page_if_needed ypos
  = ((PAGE_H - top)%Q, [mkEvent (Some ypos) ShowPage]).
Proof.
  intros ypos. unfold new_page_if_needed.
  destruct (Qltb ypos (bottom + 2 * cm)); [right | left]; reflexivity.
Qed.

Lemma pages_from_length : forall l acc,
  length (pages_from acc l) = S (length (filter is_showpage l)).
Proof.
  induction l as [|o l IH]; intros acc; [reflexivity|].
  destruct o; simpl; rewrite IH; reflexivity.
Qed.

(** C2 (amended). In one render pass every canvas call is made at a cursor
    that is at most the cursor of the call before it, or at most the top
    margin PAGE_H - top when the call before it is a page break, with one
    exception: the call that follows the EDUCATION title may be made up to
    0.2 points above the title (line 239 adds 15 after the title took off
    14.8).  [new_page_if_needed] either does nothing or breaks the page and
    returns PAGE_H - top, and each page break starts a new page. *)
Theorem cursor_discipline : forall data,
  (exists pre y0 post,
     trace (compose stringWidth data) = pre ++ education_title y0 :: post /\
     cursor_ok (PAGE_H - top)%Q (pre ++ [education_title y0]) = true /\
     cursor_ok (y0 + 0.2)%Q post = true) /\
  (forall ypos,
     new_page_if_needed ypos = (ypos, []) \/
     new_page_if_needed ypos
     = ((PAGE_H - top)%Q, [mkEvent (Some ypos) ShowPage])) /\
  length (pages (ops (compose stringWidth data)))
  = S (length (filter is_showpage (ops (compose stringWidth data)))).
Proof.
  intros data. split; [|split].
  - pose proof (compose_split data) as Hsplit. cbv zeta in Hsplit.
    set (y0 := fst (before_education stringWidth data)) in *.
    exists (trace (before_education stringWidth data)
            ++ [mkEvent (Some y0) (SetFont HelveticaBold 11)]),
           y0,
           (trace (after_education_title stringWidth data
                     (y0 - (14 + MIN_LINE_GAP) + 15)%Q)).
    split; [exact Hsplit | split].
    + pose proof (before_education_spec data) as Hpre. unfold triple in Hpre.
      destruct (Hpre (PAGE_H - top)%Q) as (b & Hb & Hle); [apply Qle_refl|].
      fold y0 in Hle. unfold At in Hle. apply Qle_bool_iff in Hle.
      unfold cursor_ok. rewrite <- app_assoc, check_app, Hb.
      simpl. unfold Qleb. rewrite Hle.
      assert (Hr : Qle_bool y0 y0 = true)
        by (apply Qle_bool_iff, Qle_refl).
      rewrite Hr. reflexivity.
    + pose proof (@after_education_title_spec data
                    (y0 - (14 + MIN_LINE_GAP) + 15)%Q) as Hpost.
      unfold triple in Hpost.
      destruct (Hpost (y0 + 0.2)%Q) as (b & Hb & _).
      * unfold At, MIN_LINE_GAP. lra.
      * unfold cursor_ok. rewrite Hb. reflexivity.
  - apply new_page_if_needed_cases.
  - apply pages_from_length.
Qed.

End CursorDiscipline.

(** C2, as stated, fails: for a document with one certification the
    CERTIFICATIONS title is drawn, on the same page, 0.2 points above the
    EDUCATION title drawn just before it. *)
Lemma cursor_discipline_counterexample :
  cursor_ok (PAGE_H - top)%Q (trace (compose mono_width certs_doc)) = false /\
  cursor_ok (PAGE_H - top)%Q
    (drawing_events (trace (compose mono_width certs_doc))) = false /\
  existsb is_showpage (ops (compose mono_width certs_doc)) = false.
Proof. vm_compute. auto. Qed.

(* ================================================================= *)
(** * Further properties of the code *)

(** ** The text wrapper: empty input, forced breaks, one-line texts *)

Lemma split_nil_iff : forall s, split s = [] <-> forallb isspace s = true.
Proof.
  induction s as [|c s IH]; [simpl; tauto|].
  cbn [split forallb]. destruct (isspace c) eqn:Hc; simpl.
  - exact IH.
  - split; [|discriminate].
    destruct s as [|d s']; [discriminate|].
    destruct (isspace d); [discriminate|].
    destruct (split (d :: s')); discriminate.
Qed.

Lemma concat_length_le : forall (gs : list (list str)),
  Forall (fun g => g <> []) gs -> (length gs <= length (concat gs))%nat.
Proof.
  induction 1 as [|g gs Hg _ IH]; [reflexivity|].
  simpl. rewrite length_app. destruct g; [congruence | simpl; lia].
Qed.

Section WrapMore.

Variable stringWidth : str -> Font -> Q -> Q.
Variable max_width : Q.
Variable font : Font.
Variable size : Q.

Local Notation "'Built'" := (built stringWidth max_width font size).
Local Notation "'Tight'" := (tight stringWidth max_width font size).
Local Notation "'GInv'" := (greedy_inv stringWidth max_width font size).
Local Notation "'step'" := (wrap_step stringWidth max_width font size).
Local Notation "'loop'" := (wrap_loop stringWidth max_width font size).

(** X1. [wrap_lines] returns no line exactly when the text is empty or all
    white space, and never more lines than the text has words. *)
Theorem wrap_lines_empty_iff : forall text,
  (wrap_lines stringWidth text max_width font size = []
   <-> forallb isspace text = true) /\
  (length (wrap_lines stringWidth text max_width font size)
   <= length (split text))%nat.
Proof.
  intros text.
  destruct (wrap_lines_groups stringWidth max_width font size text)
    as (gs & E & Hgs & Hc).
  assert (Hne : Forall (fun g => g <> []) gs).
  { eapply Forall_impl; [|exact Hgs]. intros g Hg.
    exact (built_nonempty Hg). }
  split.
  - rewrite <- split_nil_iff, E, <- Hc. split.
    + intros H. destruct gs; [reflexivity | discriminate].
    + intros H. destruct gs as [|g gs]; [reflexivity|].
      inversion Hne; subst. simpl in H. destruct g; [congruence | discriminate].
  - rewrite E, length_map, <- Hc. apply concat_length_le. exact Hne.
Qed.

Lemma tight_snoc_new : forall gs g w,
  g <> [] -> Tight (gs ++ [g]) ->
  Qleb (stringWidth (join_sp (g ++ [w])) font size) max_width = false ->
  Tight ((gs ++ [g]) ++ [[w]]).
Proof.
  induction gs as [|a gs IH]; intros g w Hg Ht Hn.
  - simpl. auto.
  - destruct gs as [|b gs'].
    + simpl in *. destruct Ht as [H1 _]. auto.
    + change (((a :: b :: gs') ++ [g]) ++ [[w]])
        with (a :: ((b :: gs') ++ [g]) ++ [[w]]).
      change ((a :: b :: gs') ++ [g]) with (a :: (b :: gs') ++ [g]) in Ht.
      change ((b :: gs') ++ [g]) with (b :: gs' ++ [g]) in *.
      destruct Ht as [H1 H2].
      split; [exact H1|].
      change (b :: (gs' ++ [g]) ++ [[w]]) with (((b :: gs') ++ [g]) ++ [[w]]).
      apply IH; assumption.
Qed.

Lemma tight_extend_last : forall gs g w,
  g <> [] -> Tight (gs ++ [g]) -> Tight (gs ++ [g ++ [w]]).
Proof.
  induction gs as [|a gs IH]; intros g w Hg Ht.
  - simpl. exact I.
  - destruct gs as [|b gs'].
    + simpl in *. destruct Ht as [H1 _].
      split; [|exact I]. destruct g; [congruence | exact H1].
    + change ((a :: b :: gs') ++ [g ++ [w]])
        with (a :: b :: gs' ++ [g ++ [w]]).
      change ((a :: b :: gs') ++ [g]) with (a :: b :: gs' ++ [g]) in Ht.
      destruct Ht as [H1 H2]. split; [exact H1|].
      apply (IH g w Hg H2).
Qed.

Lemma greedy_inv_init : GInv [] ([], []).
Proof. exists [], []. simpl. repeat split; auto. Qed.

Lemma greedy_inv_step : forall done st w,
  GInv done st -> word w -> GInv (done ++ [w]) (step st w).
Proof.
  intros done [line lines] w
    (gs & cur & Hl & Hgs & Hcur & Hline & Hd & Hfirst & Ht) Hw.
  simpl in Hl, Hline. subst line lines done.
  assert (Hcw : Forall word cur).
  { destruct Hcur as [-> | Hb]; [constructor | exact (built_words Hb)]. }
  unfold wrap_step. rewrite (strip_test Hcw Hw).
  destruct (Qleb (stringWidth (join_sp (cur ++ [w])) font size) max_width) eqn:E.
  - exists gs, (cur ++ [w]). simpl. repeat split; auto.
    + right. destruct Hcur as [-> | Hb].
      * apply built_one; assumption.
      * apply built_snoc; assumption.
    + rewrite app_assoc. reflexivity.
    + intros H. apply app_eq_nil in H. destruct H; discriminate.
    + destruct Hcur as [-> | Hb].
      * rewrite (Hfirst eq_refl). simpl. exact I.
      * pose proof (built_nonempty Hb) as Hne.
        assert (Hw1 : with_open gs cur
                      = gs ++ [cur]) by (destruct cur; [congruence | reflexivity]).
        assert (Hw2 : with_open gs (cur ++ [w])
                      = gs ++ [cur ++ [w]]) by (destruct cur; reflexivity).
        rewrite Hw1 in Ht. rewrite Hw2.
        apply tight_extend_last; assumption.
  - destruct Hcur as [-> | Hb].
    + exists gs, [w]. rewrite (Hfirst eq_refl) in *.
      simpl. repeat split; auto; try discriminate.
      right. apply built_one; assumption.
    + pose proof (built_nonempty Hb) as Hne.
      assert (Hn : nonempty (join_sp cur) = true).
      { pose proof (join_sp_nonempty Hne (built_words Hb)).
        destruct (join_sp cur); [congruence | reflexivity]. }
      rewrite Hn.
      exists (gs ++ [cur]), [w]. simpl. repeat split.
      * rewrite map_app. reflexivity.
      * apply Forall_app; split;
          [assumption | constructor; [assumption | constructor]].
      * right. apply built_one; assumption.
      * rewrite concat_snoc. reflexivity.
      * discriminate.
      * change (with_open (gs ++ [cur]) [w]) with ((gs ++ [cur]) ++ [[w]]).
        assert (Hw1 : with_open gs cur
                      = gs ++ [cur]) by (destruct cur; [congruence | reflexivity]).
        rewrite Hw1 in Ht. apply tight_snoc_new; assumption.
Qed.

Lemma greedy_inv_run : forall words done st,
  Forall word words -> GInv done st -> GInv (done ++ words) (loop words st).
Proof.
  induction words as [|w ws IH]; intros done st Hws Hinv.
  - rewrite app_nil_r. exact Hinv.
  - inversion Hws; subst. unfold wrap_loop. simpl.
    change (w :: ws) with ([w] ++ ws). rewrite app_assoc.
    apply IH; [assumption|]. apply greedy_inv_step; assumption.
Qed.

Lemma flush_with_open : forall gs cur,
  (cur = [] \/ Built cur) ->
  flush (join_sp cur, map join_sp gs)
  = map join_sp (with_open gs cur).
Proof.
  intros gs cur [-> | Hb]; [reflexivity|].
  pose proof (join_sp_nonempty (built_nonempty Hb) (built_words Hb)) as Hne.
  destruct cur as [|c0 cur0]; [exfalso; exact (built_nonempty Hb eq_refl)|].
  unfold flush, with_open. rewrite map_app. cbn [map].
  destruct (join_sp (c0 :: cur0)); [congruence | reflexivity].
Qed.

Lemma tight_breaks_forced : forall gs,
  Forall Built gs -> Tight gs ->
  breaks_forced stringWidth max_width font size (map join_sp gs).
Proof.
  induction gs as [|g gs IH]; intros Hb Ht; [exact I|].
  destruct gs as [|g' gs']; [exact I|].
  inversion Hb as [|? ? Hg Hrest]; subst.
  inversion Hrest as [|? ? Hg' _]; subst.
  destruct Ht as [H1 H2].
  change (map join_sp (g :: g' :: gs'))
    with (join_sp g :: join_sp g' :: map join_sp gs').
  split.
  - unfold first_word. rewrite (split_join_sp (built_words Hg')).
    rewrite <- (join_sp_snoc (hd [] g') (built_nonempty Hg)).
    apply Qnot_le_lt. intros Hle. apply Qle_bool_iff in Hle.
    unfold Qleb in H1. exact (eq_true_false_abs _ Hle H1).
  - apply (IH Hrest H2).
Qed.

(** X2. The wrap is greedy: between any two consecutive lines returned by
    [wrap_lines], the earlier line extended by a space and the first word
    of the later line measures more than [max_width]. *)
Theorem wrap_lines_breaks_forced : forall text,
  breaks_forced stringWidth max_width font size
    (wrap_lines stringWidth text max_width font size).
Proof.
  intros text. unfold wrap_lines.
  destruct (split text) as [|w ws] eqn:E; [exact I|]. rewrite <- E.
  assert (H : GInv ([] ++ split text) (loop (split text) ([], [])))
    by (apply greedy_inv_run; [apply split_words | apply greedy_inv_init]).
  destruct (loop (split text) ([], [])) as [line lines].
  destruct H as (gs & cur & Hl & Hgs & Hcur & Hline & _ & _ & Ht).
  simpl in Hl, Hline. subst. rewrite (flush_with_open gs Hcur).
  apply tight_breaks_forced; [|exact Ht].
  destruct Hcur as [-> | Hb]; [exact Hgs|].
  destruct cur; [exact Hgs|]. simpl.
  apply Forall_app; split; [exact Hgs | constructor; [exact Hb | constructor]].
Qed.

Lemma prefixes_built : forall ws,
  Forall word ws -> ws <> [] ->
  (forall n, (2 <= n <= length ws)%nat ->
     fits stringWidth max_width font size (join_sp (firstn n ws))) ->
  Built ws.
Proof.
  induction ws as [|w ws IH] using rev_ind; intros Hw Hne Hfit; [congruence|].
  apply Forall_app in Hw. destruct Hw as [Hws Hw1].
  inversion Hw1; subst.
  destruct ws as [|a ws'].
  - apply built_one. assumption.
  - apply built_snoc; [|assumption|].
    + apply IH; [assumption | discriminate |].
      intros n Hn. specialize (Hfit n).
      rewrite firstn_app in Hfit.
      replace (n - length (a :: ws'))%nat with 0%nat in Hfit by lia.
      simpl firstn at 2 in Hfit. rewrite app_nil_r in Hfit.
      apply Hfit. rewrite length_app. simpl. simpl in Hn. lia.
    + specialize (Hfit (length ((a :: ws') ++ [w]))).
      rewrite firstn_all in Hfit. apply Hfit.
      rewrite length_app. simpl. lia.
Qed.

(** X3. A text that has at least one word, and whose prefixes of two or
    more words all fit, is returned as a single line: its words joined by
    single spaces.  In particular a one-word text is returned as that word,
    whatever its width. *)
Theorem wrap_lines_single_line : forall text,
  split text <> [] ->
  (forall n, (2 <= n <= length (split text))%nat ->
     (stringWidth (join_sp (firstn n (split text))) font size
      <= max_width)%Q) ->
  wrap_lines stringWidth text max_width font size = [join_sp (split text)].
Proof.
  intros text Hne Hfit.
  assert (Hb : Built (split text)).
  { apply prefixes_built; [apply split_words | exact Hne |].
    intros n Hn. unfold fits. apply Qle_bool_iff. apply Hfit. exact Hn. }
  unfold wrap_lines. destruct (split text) as [|w ws] eqn:E; [congruence|].
  rewrite (built_loop Hb). unfold flush.
  pose proof (join_sp_nonempty (built_nonempty Hb) (built_words Hb)) as Hj.
  destruct (join_sp (w :: ws)); [congruence | reflexivity].
Qed.

End WrapMore.

(** An instance of X3: "Hello   world" at 80 points, sample measure. *)
Lemma wrap_lines_single_line_witness :
  split (lit "Hello   world") <> [] /\
  wrap_lines mono_width (lit "Hello   world") 80 Helvetica 10
  = [join_sp (split (lit "Hello   world"))].
Proof.
  assert (H1 : split (lit "Hello   world") <> []) by (vm_compute; discriminate).
  split; [exact H1|].
  apply (@wrap_lines_single_line mono_width 80%Q Helvetica 10%Q
           (lit "Hello   world") H1).
  intros n Hn.
  assert (Hn2 : n = 2%nat) by (vm_compute in Hn; lia).
  subst n. vm_compute. discriminate.
Defined.

(* ================================================================= *)
(** ** The layout engine: what is drawn and how far the cursor moves *)

Lemma ops_bind : forall A B (m : W A) (k : A -> W B),
  ops (bind m k) = ops m ++ ops (k (fst m)).
Proof.
  intros. unfold ops. fold (trace (bind m k)). rewrite bind_trace.
  apply map_app.
Qed.

Lemma texts_app : forall l l', texts (l ++ l') = texts l ++ texts l'.
Proof.
  induction l as [|o l IH]; intros l'; [reflexivity|].
  destruct o; simpl; rewrite ?IH; reflexivity.
Qed.

Lemma rects_app : forall l l', rects (l ++ l') = rects l ++ rects l'.
Proof.
  induction l as [|o l IH]; intros l'; [reflexivity|].
  destruct o; simpl; rewrite ?IH; reflexivity.
Qed.

Lemma draw_text_lines_texts : forall x leading lines y,
  texts (ops (draw_text_lines x y leading lines)) = lines.
Proof.
  intros x leading lines.
  induction lines as [|ln rest IH]; intros y; [reflexivity|].
  cbn [draw_text_lines]. rewrite ops_bind, texts_app, IH. reflexivity.
Qed.

Lemma draw_text_lines_result : forall x leading lines y,
  (fst (draw_text_lines x y leading lines)
   == y - Qofnat (length lines) * leading)%Q.
Proof.
  intros x leading lines.
  induction lines as [|ln rest IH]; intros y.
  - simpl. unfold Qofnat. simpl. ring.
  - cbn [draw_text_lines length]. rewrite bind_fst, IH, Qofnat_S. ring.
Qed.

Section LayoutFacts.

Variable stringWidth : str -> Font -> Q -> Q.

Lemma draw_wrapped_text_texts :
  forall text x y max_width font size leading min_gap,
    texts (ops (draw_wrapped_text stringWidth text x y max_width font size
                  leading min_gap))
    = wrap_lines stringWidth text max_width font size.
Proof.
  intros. unfold draw_wrapped_text. cbv zeta.
  rewrite flush_loop_wrap_lines.
  rewrite !ops_bind, !texts_app, draw_text_lines_texts.
  simpl. apply app_nil_r.
Qed.

Lemma draw_wrapped_text_cursor :
  forall text x y max_width font size leading min_gap,
    (fst (draw_wrapped_text stringWidth text x y max_width font size
            leading min_gap)
     == y - Qofnat (length (wrap_lines stringWidth text max_width font size))
            * leading - min_gap)%Q.
Proof.
  intros. unfold draw_wrapped_text. cbv zeta.
  rewrite flush_loop_wrap_lines.
  rewrite !bind_fst. cbn [ret fst]. rewrite draw_text_lines_result.
  reflexivity.
Qed.

(** X4. [draw_wrapped_text] draws exactly the lines [wrap_lines] returns
    for the same text, width, font and size, in order, and returns the
    cursor lowered by one leading per line plus the paragraph gap. *)
Theorem draw_wrapped_text_result :
  forall text x y max_width font size leading min_gap,
    let m := draw_wrapped_text stringWidth text x y max_width font size
               leading min_gap in
    let lines := wrap_lines stringWidth text max_width font size in
    texts (ops m) = lines /\
    (fst m == y - Qofnat (length lines) * leading - min_gap)%Q.
Proof.
  intros. subst m lines.
  split; [apply draw_wrapped_text_texts | apply draw_wrapped_text_cursor].
Qed.

Lemma draw_bullet_items_result :
  forall bullets x y max_width font size leading bullet_indent,
    let m := draw_bullet_items stringWidth bullets x y max_width font size
               leading bullet_indent in
    texts (ops m)
    = flat_map (fun b =>
                  bullet_marker
                  :: wrap_lines stringWidth b (max_width - bullet_indent)%Q
                       font size) bullets /\
    (fst m == y - bullets_height stringWidth bullets max_width font size
                    leading bullet_indent)%Q.
Proof.
  intros bullets x y max_width font size leading bullet_indent. cbv zeta.
  revert y. induction bullets as [|b rest IH]; intros y.
  - simpl. split; [reflexivity | ring].
  - cbn [draw_bullet_items flat_map bullets_height].
    pose proof (draw_wrapped_text_texts b (x + bullet_indent)%Q y
                  (max_width - bullet_indent)%Q font size leading MIN_LINE_GAP)
      as Ht.
    pose proof (draw_wrapped_text_cursor b (x + bullet_indent)%Q y
                  (max_width - bullet_indent)%Q font size leading MIN_LINE_GAP)
      as Hy.
    split.
    + rewrite !ops_bind, !texts_app, Ht.
      destruct (IH (fst (draw_wrapped_text stringWidth b (x + bullet_indent) y
                           (max_width - bullet_indent) font size leading
                           MIN_LINE_GAP) - MIN_LINE_GAP)%Q) as [IHt _].
      rewrite IHt. reflexivity.
    + rewrite !bind_fst. cbv zeta.
      destruct (IH (fst (draw_wrapped_text stringWidth b (x + bullet_indent) y
                           (max_width - bullet_indent) font size leading
                           MIN_LINE_GAP) - MIN_LINE_GAP)%Q) as [_ IHy].
      rewrite IHy, Hy. ring.
Qed.

(** X5. [draw_bullets] draws, for each bullet in order, the marker followed
    by the bullet's text wrapped to the width less the indent, and returns
    the cursor lowered by one leading per wrapped line and two paragraph
    gaps per bullet; an absent or empty list draws no string and returns
    the cursor as it was. *)
Theorem draw_bullets_result :
  forall bullets x y max_width font size leading bullet_indent,
    let m := draw_bullets stringWidth bullets x y max_width font size
               leading bullet_indent in
    texts (ops m)
    = flat_map (fun b =>
                  bullet_marker
                  :: wrap_lines stringWidth b (max_width - bullet_indent)%Q
                       font size) (or_nil bullets) /\
    (fst m == y - bullets_height stringWidth (or_nil bullets) max_width font
                    size leading bullet_indent)%Q.
Proof.
  intros bl x y max_width font size leading bullet_indent. cbv zeta.
  unfold draw_bullets.
  destruct (draw_bullet_items_result (or_nil bl) x y max_width font size
              leading bullet_indent) as [Ht Hy].
  split.
  - rewrite ops_bind, texts_app, Ht. reflexivity.
  - rewrite bind_fst. exact Hy.
Qed.

End LayoutFacts.

Lemma draw_box_lines_texts : forall y x padding leading line_gap lines ty,
  texts (ops (draw_box_lines y x padding leading line_gap ty lines)) = lines.
Proof.
  intros y x padding leading line_gap lines.
  induction lines as [|ln rest IH]; intros ty; [reflexivity|].
  cbn [draw_box_lines]. rewrite ops_bind, texts_app, IH. reflexivity.
Qed.

Lemma draw_box_lines_rects : forall y x padding leading line_gap lines ty,
  rects (ops (draw_box_lines y x padding leading line_gap ty lines)) = [].
Proof.
  intros y x padding leading line_gap lines.
  induction lines as [|ln rest IH]; intros ty; [reflexivity|].
  cbn [draw_box_lines]. rewrite ops_bind, rects_app, IH. reflexivity.
Qed.

Lemma draw_box_lines_within :
  forall y x padding leading line_gap lo hi lines ty,
    (0 <= leading + line_gap)%Q ->
    (ty <= hi)%Q ->
    (lo + Qofnat (length lines) * (leading + line_gap)
     <= ty + (leading + line_gap))%Q ->
    Forall (baseline_within lo hi)
      (ops (draw_box_lines y x padding leading line_gap ty lines)).
Proof.
  intros y x padding leading line_gap lo hi lines.
  induction lines as [|ln rest IH]; intros ty HK Hhi Hlo; [constructor|].
  cbn [draw_box_lines]. rewrite ops_bind. cbn [length] in Hlo.
  rewrite Qofnat_S in Hlo.
  assert (HP : (0 <= Qofnat (length rest) * (leading + line_gap))%Q)
    by (apply Qmult_le_0_compat; [apply Qofnat_nonneg | exact HK]).
  set (P := (Qofnat (length rest) * (leading + line_gap))%Q) in *.
  assert (Hlo' : (lo + P <= ty)%Q).
  { setoid_replace ((Qofnat (length rest) + 1) * (leading + line_gap))%Q
      with (P + (leading + line_gap))%Q in Hlo by (unfold P; ring).
    lra. }
  constructor.
  - simpl. split; lra.
  - apply IH; [exact HK | lra | fold P; lra].
Qed.

(** X6. [draw_boxed_block] draws exactly the given lines, in order, and one
    rectangle whose top edge is at [y] and whose height is the box height.
    When the font size is at most padding + leading (and padding + size and
    leading + gap are not negative) every baseline lies between the bottom
    and the top of the box. *)
Theorem draw_boxed_block_inside :
  forall x y width lines padding font size leading line_gap,
    (0 <= padding + size)%Q ->
    (size <= padding + leading)%Q ->
    (0 <= leading + line_gap)%Q ->
    let m := draw_boxed_block x y width lines padding font size leading
               line_gap in
    let h := box_height padding leading line_gap (length lines) in
    texts (ops m) = lines /\
    rects (ops m) = [Rect x (y - h) width h false false] /\
    Forall (baseline_within (y - h) y) (ops m).
Proof.
  intros x y width lines padding font size leading line_gap Ht Hs HK.
  cbv zeta. unfold draw_boxed_block. cbv zeta.
  rewrite !ops_bind. split; [|split].
  - rewrite !texts_app, draw_box_lines_texts. simpl. apply app_nil_r.
  - rewrite !rects_app, draw_box_lines_rects. reflexivity.
  - repeat (apply Forall_app; split);
      try (repeat constructor; fail).
    destruct lines as [|ln rest]; [constructor|].
    apply draw_box_lines_within; [exact HK | lra |].
    unfold box_height.
    + cbn [length]. rewrite Qofnat_S.
      replace (Z.max 0 (Z.of_nat (S (length rest)) - 1))
        with (Z.of_nat (length rest)) by lia.
      change (inject_Z (Z.of_nat (length rest))) with (Qofnat (length rest)).
      set (n := Qofnat (length rest)).
      assert (E : (y - (padding * 2 + (n + 1) * leading + n * line_gap)
                   + (n + 1) * (leading + line_gap)
                   == y - padding * 2 + line_gap)%Q) by ring.
      rewrite E. lra.
Qed.

(** An instance of X6: a card of the education grid with three lines. *)
Lemma draw_boxed_block_inside_witness :
  let lines := [lit "BSc"; lit "Computer Science"; lit "2020"] in
  let m := draw_boxed_block x1 700 col_w lines card_padding card_font
             card_size card_leading 0 in
  let h := box_height card_padding card_leading 0 (length lines) in
  (0 <= card_padding + card_size)%Q /\
  (card_size <= card_padding + card_leading)%Q /\
  (0 <= card_leading + 0)%Q /\
  texts (ops m) = lines /\
  rects (ops m) = [Rect x1 (700 - h) col_w h false false] /\
  Forall (baseline_within (700 - h) 700) (ops m).
Proof.
  assert (H1 : (0 <= card_padding + card_size)%Q) by (vm_compute; discriminate).
  assert (H2 : (card_size <= card_padding + card_leading)%Q)
    by (vm_compute; discriminate).
  assert (H3 : (0 <= card_leading + 0)%Q) by (vm_compute; discriminate).
  split; [exact H1 | split; [exact H2 | split; [exact H3 |]]].
  exact (@draw_boxed_block_inside x1 700%Q col_w
           [lit "BSc"; lit "Computer Science"; lit "2020"]
           card_padding card_font card_size card_leading 0%Q H1 H2 H3).
Defined.

(* ================================================================= *)
(** ** The education grid: rows, cards and page breaks *)

Lemma pad_row_left_length : forall left_lines right_lines right_present,
  length (fst (pad_row left_lines right_lines right_present))
  = Nat.max (length left_lines)
      (if right_present then length right_lines else 0%nat).
Proof.
  intros l r p. unfold pad_row. cbn [fst].
  set (n := if p then length r else 0%nat).
  destruct (Nat.ltb_spec (length l) (Nat.max (length l) n)).
  - rewrite length_app, repeat_length. lia.
  - lia.
Qed.

Lemma unbroken_bind : forall A B (m : W A) (k : A -> W B),
  unbroken m -> (forall a, unbroken (k a)) -> unbroken (bind m k).
Proof.
  intros A B m k Hm Hk. unfold unbroken in *. rewrite bind_trace.
  apply Forall_app. auto.
Qed.

Lemma unbroken_call : forall y o, is_showpage o = false -> unbroken (call y o).
Proof. intros y o H. unfold unbroken. simpl. repeat constructor. exact H. Qed.

Lemma unbroken_ret : forall A (a : A), unbroken (ret a).
Proof. intros. constructor. Qed.

Lemma draw_boxed_block_unbroken :
  forall x y width lines padding font size leading line_gap,
    unbroken (draw_boxed_block x y width lines padding font size leading
                line_gap).
Proof.
  intros. unfold draw_boxed_block. cbv zeta.
  repeat (apply unbroken_bind; [apply unbroken_call; reflexivity | intros ?]).
  apply unbroken_bind; [|intros ?; apply unbroken_ret].
  generalize (y - padding - size)%Q.
  induction lines as [|ln rest IH]; intros ty; cbn [draw_box_lines].
  - apply unbroken_ret.
  - apply unbroken_bind; [apply unbroken_call; reflexivity | intros ?; apply IH].
Qed.

Lemma draw_boxed_block_texts :
  forall x y width lines padding font size leading line_gap,
    texts (ops (draw_boxed_block x y width lines padding font size leading
                  line_gap)) = lines.
Proof.
  intros. unfold draw_boxed_block. cbv zeta.
  rewrite !ops_bind, !texts_app, draw_box_lines_texts. simpl.
  apply app_nil_r.
Qed.

Lemma draw_boxed_block_one_rect :
  forall x y width lines padding font size leading line_gap,
    length (rects (ops (draw_boxed_block x y width lines padding font size
                          leading line_gap))) = 1%nat.
Proof.
  intros. unfold draw_boxed_block. cbv zeta.
  rewrite !ops_bind, !rects_app, draw_box_lines_rects. reflexivity.
Qed.

Section EducationFacts.

Variable stringWidth : str -> Font -> Q -> Q.

Lemma edu_row_unfold : forall left_item right_item y,
  edu_row stringWidth left_item right_item y
  = (y <- (if Qltb y (bottom + 4 * cm)%Q
           then call y ShowPage ;;; ret (PAGE_H - top)%Q
           else ret y) ;;
     let padded :=
       pad_row (card_lines stringWidth left_item)
         (match right_item with
          | Some d => if dict_truthy d then card_lines stringWidth d else []
          | None => []
          end)
         (right_present_of right_item) in
     r <- draw_boxed_block x1 y col_w (fst padded)
            card_padding card_font card_size card_leading 0 ;;
     row_height <-
       (if right_present_of right_item then
          r2 <- draw_boxed_block x2 y col_w (snd padded)
                  card_padding card_font card_size card_leading 0 ;;
          ret (pymax (snd r) (snd r2))
        else ret (snd r)) ;;
     ret (y - row_height - 10)%Q).
Proof.
  intros. unfold edu_row, right_present_of. cbv zeta.
  destruct (pad_row _ _ _). reflexivity.
Qed.

Lemma page_break_top : forall y,
  fst (if Qltb y (bottom + 4 * cm)%Q
       then call y ShowPage ;;; ret (PAGE_H - top)%Q
       else ret y) = row_top y.
Proof.
  intros y. unfold row_top. destruct (Qltb y (bottom + 4 * cm)); reflexivity.
Qed.

(** X7. One education row lowers the cursor, counted from the top margin
    when the row starts a new page, by the height of a card with max(m, n)
    lines (2 x 6 + 11 per line) plus the row gap of 10, where m and n are
    the numbers of wrapped lines of the left card and of the right card (0
    when there is no right card). *)
Theorem edu_row_advance : forall left_item right_item y,
  let m := length (card_lines stringWidth left_item) in
  let n :=
    match right_item with
    | Some d =>
        if dict_truthy d then length (card_lines stringWidth d) else 0%nat
    | None => 0%nat
    end in
  (fst (edu_row stringWidth left_item right_item y)
   == row_top y - (12 + 11 * Qofnat (Nat.max m n)) - 10)%Q.
Proof.
  intros left_item right_item y. cbv zeta.
  rewrite edu_row_unfold. rewrite bind_fst, page_break_top. cbv zeta.
  rewrite bind_fst, draw_boxed_block_result, bind_fst. cbn [ret fst snd].
  set (rl := match right_item with
             | Some d => if dict_truthy d then card_lines stringWidth d else []
             | None => []
             end).
  assert (Hn : (if right_present_of right_item then length rl else 0%nat)
               = match right_item with
                 | Some d => if dict_truthy d
                             then length (card_lines stringWidth d) else 0%nat
                 | None => 0%nat
                 end).
  { unfold rl, right_present_of. destruct right_item as [d|]; [|reflexivity].
    destruct (dict_truthy d); reflexivity. }
  rewrite <- Hn.
  destruct (right_present_of right_item) eqn:Hp.
  - rewrite bind_fst, draw_boxed_block_result. cbn [ret fst snd].
    destruct (pad_row_lengths (card_lines stringWidth left_item) rl)
      as [Hl Hr].
    rewrite Hl, Hr, pymax_same.
    unfold box_height, card_padding, card_leading.
    set (k := Nat.max _ _). ring.
  - cbn [ret fst]. rewrite pad_row_left_length.
    unfold box_height, card_padding, card_leading.
    set (k := Nat.max _ _). ring.
Qed.

(** X8. A page break inside the education grid can only be the first call
    of a row: after it the row draws its cards without breaking the page,
    so the two cards of a row, and the rectangle and lines of a card, are
    on the same page.  A row draws one rectangle, or two when its right
    card is present. *)
Theorem edu_row_break_first : forall left_item right_item y,
  exists rest,
    trace (edu_row stringWidth left_item right_item y)
    = (if Qltb y (bottom + 4 * cm)%Q then [mkEvent (Some y) ShowPage] else [])
      ++ rest /\
    Forall (fun e => is_showpage (op e) = false) rest /\
    length (rects (map op rest))
    = (if right_present_of right_item then 2%nat else 1%nat).
Proof.
  intros left_item right_item y. rewrite edu_row_unfold.
  rewrite bind_trace, page_break_top. cbv zeta.
  match goal with
  | |- context [trace ?m ++ trace ?k] =>
      exists (trace k)
  end.
  split; [|split].
  - destruct (Qltb y (bottom + 4 * cm)); reflexivity.
  - apply unbroken_bind; [apply draw_boxed_block_unbroken | intros r].
    apply unbroken_bind; [|intros ?; apply unbroken_ret].
    destruct (right_present_of right_item).
    + apply unbroken_bind;
        [apply draw_boxed_block_unbroken | intros ?; apply unbroken_ret].
    + apply unbroken_ret.
  - match goal with
    | |- context [map op (trace ?k)] => change (map op (trace k)) with (ops k)
    end.
    rewrite ops_bind, rects_app, length_app, draw_boxed_block_one_rect.
    rewrite ops_bind, rects_app, length_app.
    destruct (right_present_of right_item).
    + rewrite ops_bind, rects_app, length_app, draw_boxed_block_one_rect.
      reflexivity.
    + reflexivity.
Qed.

Lemma edu_row_rects : forall left_item right_item y,
  length (rects (ops (edu_row stringWidth left_item right_item y)))
  = (if right_present_of right_item then 2%nat else 1%nat).
Proof.
  intros left_item right_item y. rewrite edu_row_unfold.
  rewrite ops_bind, rects_app, length_app. cbv zeta.
  rewrite ops_bind, rects_app, length_app, draw_boxed_block_one_rect.
  rewrite ops_bind, rects_app, length_app.
  assert (H0 : length (rects (ops (if Qltb y (bottom + 4 * cm)%Q
                                   then call y ShowPage ;;; ret (PAGE_H - top)%Q
                                   else ret y))) = 0%nat)
    by (destruct (Qltb y (bottom + 4 * cm)); reflexivity).
  rewrite H0.
  destruct (right_present_of right_item).
  - rewrite ops_bind, rects_app, length_app, draw_boxed_block_one_rect.
    reflexivity.
  - reflexivity.
Qed.

(** X9. When no education entry is an empty object, the grid draws one
    card rectangle per entry. *)
Theorem edu_rows_one_card_each : forall edu_items y,
  Forall (fun d => d <> []) edu_items ->
  length (rects (ops (edu_rows stringWidth edu_items y)))
  = length edu_items.
Proof.
  fix IH 1. intros [|left_item [|right_item rest]] y H; cbn [edu_rows].
  - reflexivity.
  - rewrite edu_row_rects. reflexivity.
  - inversion H as [|? ? _ H']; subst.
    inversion H' as [|? ? Hr H'']; subst.
    rewrite ops_bind, rects_app, length_app, edu_row_rects, (IH rest _ H'').
    cbn [right_present_of length]. destruct right_item; [congruence|].
    reflexivity.
Qed.

(** X10. An education entry that is the empty object is not drawn when it
    falls in the right column: the row is drawn exactly as if the entry
    were absent, with the left card alone and unpadded. *)
Theorem edu_row_empty_right : forall left_item y,
  edu_row stringWidth left_item (Some []) y
  = edu_row stringWidth left_item None y /\
  texts (ops (edu_row stringWidth left_item (Some []) y))
  = card_lines stringWidth left_item.
Proof.
  intros left_item y. split; [reflexivity|].
  rewrite edu_row_unfold. cbn [right_present_of dict_truthy].
  rewrite ops_bind, texts_app. cbv zeta.
  assert (Hp : fst (pad_row (card_lines stringWidth left_item) [] false)
               = card_lines stringWidth left_item).
  { unfold pad_row. cbn [fst length]. rewrite Nat.max_0_r.
    rewrite Nat.ltb_irrefl. reflexivity. }
  rewrite Hp.
  rewrite ops_bind, texts_app.
  rewrite draw_boxed_block_texts.
  destruct (Qltb y (bottom + 4 * cm)); simpl; rewrite app_nil_r; reflexivity.
Qed.

End EducationFacts.

(** An instance of X9: three entries, three cards. *)
Lemma edu_rows_one_card_each_witness :
  let items := [[(lit "degree", lit "BSc")]; [(lit "degree", lit "MSc")];
                [(lit "degree", lit "PhD")]] in
  Forall (fun d : Dict => d <> []) items /\
  length (rects (ops (edu_rows mono_width items 700))) = length items.
Proof.
  assert (H : Forall (fun d : Dict => d <> [])
                [[(lit "degree", lit "BSc")]; [(lit "degree", lit "MSc")];
                 [(lit "degree", lit "PhD")]])
    by (repeat constructor; discriminate).
  split; [exact H|].
  exact (@edu_rows_one_card_each mono_width _ 700%Q H).
Defined.

(* ================================================================= *)
(** ** The composer: frame and fixed opening *)

Lemma frameless_bind : forall A B (m : W A) (k : A -> W B),
  frameless m -> (forall a, frameless (k a)) -> frameless (bind m k).
Proof.
  intros A B m k Hm Hk. unfold frameless in *. rewrite bind_trace.
  apply Forall_app. auto.
Qed.

Lemma frameless_call : forall y o,
  is_frame_op o = false -> frameless (call y o).
Proof. intros y o H. unfold frameless. simpl. repeat constructor. exact H. Qed.

Lemma frameless_ret : forall A (a : A), frameless (ret a).
Proof. intros. constructor. Qed.

Ltac frameless_step :=
  first
    [ apply frameless_ret
    | apply frameless_call; reflexivity
    | apply frameless_bind; [| intros ?] ].

Lemma new_page_if_needed_frameless : forall ypos,
  frameless (new_page_if_needed ypos).
Proof.
  intros. unfold new_page_if_needed.
  destruct (Qltb ypos (bottom + 2 * cm)); repeat frameless_step.
Qed.

Lemma draw_text_lines_frameless : forall x leading lines y,
  frameless (draw_text_lines x y leading lines).
Proof.
  intros x leading lines.
  induction lines as [|ln rest IH]; intros y; cbn [draw_text_lines].
  - frameless_step.
  - frameless_step; [frameless_step | apply IH].
Qed.

Lemma draw_section_title_frameless : forall title x y size,
  frameless (draw_section_title title x y size).
Proof. intros. unfold draw_section_title. repeat frameless_step. Qed.

Lemma draw_divider_frameless : forall x_start x_end y thickness,
  frameless (draw_divider x_start x_end y thickness).
Proof. intros. unfold draw_divider. repeat frameless_step. Qed.

Lemma draw_boxed_block_frameless :
  forall x y width lines padding font size leading line_gap,
    frameless (draw_boxed_block x y width lines padding font size leading
                 line_gap).
Proof.
  intros. unfold draw_boxed_block. cbv zeta.
  do 4 (apply frameless_bind; [apply frameless_call; reflexivity | intros ?]).
  apply frameless_bind; [|intros ?; apply frameless_ret].
  generalize (y - padding - size)%Q.
  induction lines as [|ln rest IH]; intros ty; cbn [draw_box_lines].
  - frameless_step.
  - frameless_step; [frameless_step | apply IH].
Qed.

Lemma for_each_frameless : forall A (body : Q -> A -> W Q),
  (forall y item, frameless (body y item)) ->
  forall items y, frameless (for_each body items y).
Proof.
  intros A body Hbody items.
  induction items as [|item rest IH]; intros y; cbn [for_each].
  - frameless_step.
  - frameless_step; [apply Hbody | apply IH].
Qed.

Section ComposerFacts.

Variable stringWidth : str -> Font -> Q -> Q.

Lemma draw_wrapped_text_frameless :
  forall text x y max_width font size leading min_gap,
    frameless (draw_wrapped_text stringWidth text x y max_width font size
                 leading min_gap).
Proof.
  intros. unfold draw_wrapped_text. cbv zeta.
  frameless_step; [frameless_step|].
  frameless_step; [apply draw_text_lines_frameless | frameless_step].
Qed.

Lemma draw_bullets_frameless :
  forall bl x y max_width font size leading bullet_indent,
    frameless (draw_bullets stringWidth bl x y max_width font size leading
                 bullet_indent).
Proof.
  intros bl x y max_width font size leading bullet_indent.
  unfold draw_bullets. frameless_step; [frameless_step|].
  generalize (or_nil bl) as items. intros items. revert y.
  induction items as [|b rest IH]; intros y; cbn [draw_bullet_items].
  - frameless_step.
  - frameless_step; [frameless_step|].
    frameless_step; [apply draw_wrapped_text_frameless | apply IH].
Qed.

Lemma skill_row_frameless : forall y item,
  frameless (skill_row stringWidth y item).
Proof.
  intros. unfold skill_row. cbv zeta.
  frameless_step; [apply new_page_if_needed_frameless|].
  do 2 (frameless_step; [frameless_step|]).
  frameless_step; [apply draw_wrapped_text_frameless | frameless_step].
Qed.

Lemma exp_block_frameless : forall c r bl y,
  frameless (exp_block stringWidth c r bl y).
Proof.
  intros. unfold exp_block. cbv zeta.
  frameless_step; [apply new_page_if_needed_frameless|].
  do 3 (frameless_step; [frameless_step|]).
  frameless_step; [apply draw_wrapped_text_frameless|].
  frameless_step; [apply draw_bullets_frameless | frameless_step].
Qed.

Lemma reference_row_frameless : forall y r,
  frameless (reference_row stringWidth y r).
Proof.
  intros. unfold reference_row.
  frameless_step; [apply new_page_if_needed_frameless|].
  frameless_step; [apply draw_wrapped_text_frameless | frameless_step].
Qed.

Lemma edu_row_frameless : forall left_item right_item y,
  frameless (edu_row stringWidth left_item right_item y).
Proof.
  intros. rewrite edu_row_unfold.
  frameless_step.
  { destruct (Qltb y (bottom + 4 * cm)); repeat frameless_step. }
  cbv zeta.
  frameless_step; [apply draw_boxed_block_frameless|].
  frameless_step; [|frameless_step].
  destruct (right_present_of right_item).
  - frameless_step; [apply draw_boxed_block_frameless | frameless_step].
  - frameless_step.
Qed.

Lemma edu_rows_frameless : forall edu_items y,
  frameless (edu_rows stringWidth edu_items y).
Proof.
  fix IH 1. intros [|left_item [|right_item rest]] y; cbn [edu_rows].
  - frameless_step.
  - apply edu_row_frameless.
  - frameless_step; [apply edu_row_frameless | apply IH].
Qed.

Lemma header_frameless : forall data, frameless (header data).
Proof. intros. unfold header. cbv zeta. repeat frameless_step. Qed.

Lemma section_objective_frameless : forall data y,
  frameless (section_objective stringWidth data y).
Proof.
  intros. unfold section_objective. cbv zeta.
  frameless_step; [apply draw_divider_frameless|].
  frameless_step; [apply new_page_if_needed_frameless|].
  frameless_step; [apply draw_section_title_frameless|].
  frameless_step; [apply draw_wrapped_text_frameless | frameless_step].
Qed.

Lemma section_skills_frameless : forall data y,
  frameless (section_skills stringWidth data y).
Proof.
  intros. unfold section_skills. cbv zeta.
  frameless_step; [apply new_page_if_needed_frameless|].
  frameless_step; [apply draw_section_title_frameless|].
  frameless_step; [|frameless_step].
  apply for_each_frameless. apply skill_row_frameless.
Qed.

Lemma section_experience_frameless : forall data y,
  frameless (section_experience stringWidth data y).
Proof.
  intros. unfold section_experience.
  frameless_step; [apply new_page_if_needed_frameless|].
  frameless_step; [apply draw_section_title_frameless|].
  apply for_each_frameless. intros. apply exp_block_frameless.
Qed.

Lemma section_education_frameless : forall data y,
  frameless (section_education stringWidth data y).
Proof.
  intros. unfold section_education. cbv zeta.
  frameless_step; [apply draw_section_title_frameless|].
  apply edu_rows_frameless.
Qed.

Lemma section_certifications_frameless : forall data y,
  frameless (section_certifications stringWidth data y).
Proof.
  intros. unfold section_certifications. cbv zeta.
  destruct (or_nil (certifications data)); [frameless_step|].
  frameless_step; [apply new_page_if_needed_frameless|].
  frameless_step; [apply draw_section_title_frameless|].
  frameless_step; [apply draw_bullets_frameless|].
  frameless_step; [apply draw_divider_frameless | frameless_step].
Qed.

Lemma section_reference_frameless : forall data y,
  frameless (section_reference stringWidth data y).
Proof.
  intros. unfold section_reference. cbv zeta.
  destruct (or_nil (references data)); [frameless_step|].
  frameless_step; [apply new_page_if_needed_frameless|].
  frameless_step; [apply draw_section_title_frameless|].
  apply for_each_frameless. apply reference_row_frameless.
Qed.

(** X11. Every render starts with the three calls of the page border and
    ends with the save; between them no stroked rectangle is drawn and
    nothing is saved.  So the border is drawn once, on the first page only,
    however many pages follow. *)
Theorem compose_frame : forall data,
  exists body,
    ops (compose stringWidth data)
    = [SetLineWidth 0.5; SetStrokeColorRGB 0 0 0; page_border_rect]
      ++ body ++ [Save] /\
    Forall (fun o => is_frame_op o = false) body.
Proof.
  intros data. unfold compose.
  set (y0 := fst (header data)).
  set (y1 := fst (section_objective stringWidth data y0)).
  set (y2 := fst (section_skills stringWidth data y1)).
  set (y3 := fst (section_experience stringWidth data y2)).
  set (y4 := fst (section_education stringWidth data y3)).
  set (y5 := fst (section_certifications stringWidth data y4)).
  exists (ops (header data)
          ++ ops (section_objective stringWidth data y0)
          ++ ops (section_skills stringWidth data y1)
          ++ ops (section_experience stringWidth data y2)
          ++ ops (section_education stringWidth data y3)
          ++ ops (section_certifications stringWidth data y4)
          ++ ops (section_reference stringWidth data y5)).
  split.
  - rewrite !ops_bind. subst y0 y1 y2 y3 y4 y5.
    repeat rewrite <- app_assoc. reflexivity.
  - assert (F : forall A (m : W A),
              frameless m -> Forall (fun o => is_frame_op o = false) (ops m)).
    { intros A m H. unfold ops. apply Forall_map. exact H. }
    repeat (apply Forall_app; split); apply F.
    + apply header_frameless.
    + apply section_objective_frameless.
    + apply section_skills_frameless.
    + apply section_experience_frameless.
    + apply section_education_frameless.
    + apply section_certifications_frameless.
    + apply section_reference_frameless.
Qed.

Lemma new_page_if_needed_texts : forall ypos,
  texts (ops (new_page_if_needed ypos)) = [].
Proof.
  intros. unfold new_page_if_needed.
  destruct (Qltb ypos (bottom + 2 * cm)); reflexivity.
Qed.

(** X12. Whatever the document, the strings drawn start with the name
    ("YOUR NAME" when the key is absent), the contact line ("Location |
    Phone | Email" when absent), the title CAREER OBJECTIVE, the lines of
    the objective (none when absent) wrapped to the content width in
    Helvetica 10, and the title SKILLS SNAPSHOT. *)
Theorem compose_opening : forall data,
  exists rest,
    texts (ops (compose stringWidth data))
    = get_or (name data) (lit "YOUR NAME")
      :: get_or (contact data) (lit "Location | Phone | Email")
      :: lit "CAREER OBJECTIVE"
      :: wrap_lines stringWidth (get_or (career_objective data) [])
           content_w Helvetica 10
      ++ lit "SKILLS SNAPSHOT" :: rest.
Proof.
  intros data. unfold compose.
  rewrite ops_bind, texts_app. rewrite ops_bind, texts_app.
  rewrite ops_bind, texts_app. rewrite ops_bind, texts_app.
  set (y0 := fst (header data)).
  set (y1 := fst (section_objective stringWidth data y0)).
  match goal with
  | |- context [texts (ops (section_skills stringWidth data y1)) ++ ?t] =>
      set (tail := t)
  end.
  assert (Hobj : texts (ops (section_objective stringWidth data y0))
                 = lit "CAREER OBJECTIVE"
                   :: wrap_lines stringWidth
                        (get_or (career_objective data) [])
                        content_w Helvetica 10).
  { unfold section_objective. cbv zeta.
    rewrite !ops_bind, !texts_app, new_page_if_needed_texts,
      draw_wrapped_text_texts.
    simpl. rewrite app_nil_r. reflexivity. }
  assert (Hsk : exists r, texts (ops (section_skills stringWidth data y1))
                          = lit "SKILLS SNAPSHOT" :: r).
  { unfold section_skills. cbv zeta.
    rewrite !ops_bind, !texts_app, new_page_if_needed_texts.
    simpl. eauto. }
  destruct Hsk as (r & Hsk). exists (r ++ tail).
  rewrite Hobj, Hsk.
  change (texts (ops (draw_page_border PAGE_W PAGE_H (0.2 * cm)%Q 0.5%Q)))
    with (@nil str).
  change (texts (ops (header data)))
    with [get_or (name data) (lit "YOUR NAME");
          get_or (contact data) (lit "Location | Phone | Email")].
  cbn [app]. reflexivity.
Qed.

End ComposerFacts.

(* ================================================================= *)
(** ** Files: what a render touches *)

Section RenderFacts.

Variable stringWidth : str -> Font -> Q -> Q.
Variable Json : Type.
Variable json_loads : str -> Exn + Json.
Variable as_document : Json -> Exn + ResumeDocument.
Variable pdf_bytes : list Op -> str.

Local Notation "'Render'" :=
  (create_resume_pdf stringWidth json_loads as_document pdf_bytes).

(** X13. When [create_resume_pdf] succeeds, the input file existed, parsed
    and had the shape of a document; the output path then holds the PDF of
    that document, every other file is as it was, and one line naming the
    output path was printed. *)
Theorem create_resume_pdf_effects : forall json_path output_path w w',
  Render json_path output_path w = inr w' ->
  exists text j data,
    fs_read json_path (files w) = Some text /\
    json_loads text = inr j /\
    as_document j = inr data /\
    fs_read output_path (files w')
    = Some (pdf_bytes (ops (compose stringWidth data))) /\
    (forall p, p <> output_path ->
       fs_read p (files w') = fs_read p (files w)) /\
    stdout w' = stdout w ++ [created_msg output_path].
Proof.
  intros json_path output_path w w' H. unfold create_resume_pdf in H.
  destruct (fs_read json_path (files w)) as [text|]; [|discriminate].
  destruct (json_loads text) as [e|j] eqn:Ej; [discriminate|].
  destruct (as_document j) as [e|data] eqn:Ed; [discriminate|].
  inversion H; subst w'; clear H. cbn [files stdout].
  exists text, j, data. repeat split; auto.
  - apply fs_read_write_same.
  - intros p Hp. apply fs_read_write_other. exact Hp.
Qed.

End RenderFacts.

(** An instance of X13: the sample input file rendered to "out.pdf". *)
Lemma create_resume_pdf_effects_witness :
  create_resume_pdf mono_width sample_loads sample_as_document
    sample_pdf_bytes JSON_PATH (lit "out.pdf") sample_world
  = inr sample_world_rendered /\
  exists text j data,
    fs_read JSON_PATH (files sample_world) = Some text /\
    sample_loads text = inr j /\
    sample_as_document j = inr data /\
    fs_read (lit "out.pdf") (files sample_world_rendered)
    = Some (sample_pdf_bytes (ops (compose mono_width data))) /\
    (forall p, p <> lit "out.pdf" ->
       fs_read p (files sample_world_rendered)
       = fs_read p (files sample_world)) /\
    stdout sample_world_rendered
    = stdout sample_world ++ [created_msg (lit "out.pdf")].
Proof.
  assert (H : create_resume_pdf mono_width sample_loads sample_as_document
                sample_pdf_bytes JSON_PATH (lit "out.pdf") sample_world
              = inr sample_world_rendered) by reflexivity.
  split; [exact H|].
  exact (@create_resume_pdf_effects mono_width ResumeDocument sample_loads
           sample_as_document sample_pdf_bytes JSON_PATH (lit "out.pdf")
           sample_world sample_world_rendered H).
Defined.

(* ================================================================= *)
(** ** Skill rows and experience blocks *)

Section BlockFacts.

Variable stringWidth : str -> Font -> Q -> Q.

(** X18. A skills row draws the label (the empty string when the key is
    absent), unwrapped, and then the value wrapped to the value column; the
    cursor, counted from the top margin when the row starts a new page, is
    lowered by 12 per wrapped line of the value plus 2.8. *)
Theorem skill_row_result : forall y item,
  let m := skill_row stringWidth y item in
  let lines :=
    wrap_lines stringWidth (dict_get item (lit "value") []) value_w
      Helvetica 10 in
  texts (ops m) = dict_get item (lit "label") [] :: lines /\
  (fst m == fst (new_page_if_needed y) - Qofnat (length lines) * 12 - 2.8)%Q.
Proof.
  intros y item. cbv zeta. unfold skill_row. cbv zeta. split.
  - rewrite !ops_bind, !texts_app, new_page_if_needed_texts,
      draw_wrapped_text_texts.
    simpl. rewrite app_nil_r. reflexivity.
  - rewrite !bind_fst. cbn [ret fst].
    rewrite draw_wrapped_text_cursor. unfold MIN_LINE_GAP. ring.
Qed.

(** X19. An experience block draws the company name, unwrapped, the role
    line wrapped to the content width and then the bullets, each as its
    marker followed by its text wrapped to the content width less 10; the
    cursor, counted from the top margin when the block starts a new page,
    is lowered by 21.8 plus 12 per wrapped line of the role line plus the
    height of the bullet list. *)
Theorem exp_block_result : forall c r bl y,
  let m := exp_block stringWidth c r bl y in
  let role := wrap_lines stringWidth r content_w HelveticaBold 10 in
  texts (ops m)
  = c :: role
    ++ flat_map (fun b =>
                   bullet_marker
                   :: wrap_lines stringWidth b (content_w - 10)%Q Helvetica 10)
         (or_nil bl) /\
  (fst m == fst (new_page_if_needed y) - 21.8
            - Qofnat (length role) * 12
            - bullets_height stringWidth (or_nil bl) content_w Helvetica 10
                12 10)%Q.
Proof.
  intros c r bl y. cbv zeta. unfold exp_block, draw_bullets. cbv zeta.
  set (y0 := fst (new_page_if_needed y)).
  split.
  - rewrite !ops_bind, !texts_app, new_page_if_needed_texts,
      draw_wrapped_text_texts.
    match goal with
    | |- context [draw_bullet_items stringWidth (or_nil bl) ?x ?yy ?w ?f ?sz
                    ?l ?i] =>
        destruct (draw_bullet_items_result stringWidth (or_nil bl) x yy w f
                    sz l i) as [Ht _]
    end.
    rewrite !bind_fst in *. cbv zeta in *. rewrite Ht.
    simpl. rewrite app_nil_r. reflexivity.
  - rewrite !bind_fst. cbn [ret fst].
    match goal with
    | |- context [draw_bullet_items stringWidth (or_nil bl) ?x ?yy ?w ?f ?sz
                    ?l ?i] =>
        destruct (draw_bullet_items_result stringWidth (or_nil bl) x yy w f
                    sz l i) as [_ Hy]
    end.
    rewrite Hy, draw_wrapped_text_cursor. fold y0. unfold MIN_LINE_GAP. ring.
Qed.

End BlockFacts.
